(** * Minesweeper.ts: a shallow embedding and its verified properties

    The class [Minesweeper] of src/Minesweeper.ts generates a mine field as a
    matrix of Discord spoiler strings.  The embedding keeps the shape of the
    class: one record for the instance, one monadic definition per method,
    with the mutable fields ([matrix], [safeCells], the state of the random
    source) threaded through a state-and-exception monad.

    Conventions.
    - JS numbers are integers here ([Z]) and their arithmetic is exact, as
      that of the code is on integers up to 2 ^ 53; array indices are [Z] as
      well and a lookup outside the bounds of an array yields [undefined]
      ([None]).
    - JS strings are [string]; only concatenation, [===], [slice] and
      [includes] are used by the class and they act on code units.
    - The random source is the sequence [rng : nat -> V] of the values its
      successive calls return; the instance records how many calls were made.
      The class uses a value [r] only in [Math.floor(r * n)], and the methods
      are written for any type [V] of values that comes with this operation
      ([RandomValue]): the doubles of the code, whose product is rounded,
      and the rationals, whose product is exact.  The statements on the
      cells that [plantMines] draws are made for every such type; the others
      take a source of rationals, and use of a value only that its index
      falls inside the array, or outside it.
    - A method that dereferences [undefined] raises [TypeError]; loops whose
      length depends on the random source take fuel. *)

From Stdlib Require Import ZArith QArith Qround String Ascii List Lia Bool.
From Stdlib Require PrimFloat FloatOps SpecFloat.
From stdpp Require Import base list.

Open Scope Z_scope.

(** ** Strings *)

Module Js.

(** [String.prototype.slice(b, e)]: negative positions count from the end,
    positions are clamped to the string. *)
Definition slice (s : string) (b e : Z) : string :=
  let len := Z.of_nat (String.length s) in
  let from := if b <? 0 then Z.max (len + b) 0 else Z.min b len in
  let to := if e <? 0 then Z.max (len + e) 0 else Z.min e len in
  substring (Z.to_nat from) (Z.to_nat (to - from)) s.

(** [String.prototype.includes(needle)]. *)
Fixpoint includes (hay needle : string) : bool :=
  String.prefix needle hay ||
  match hay with
  | EmptyString => false
  | String _ hay' => includes hay' needle
  end.

(** [Array.prototype.join(sep)]. *)
Definition join (sep : string) (l : list string) : string :=
  String.concat sep l.

(** [a[i]] for a number [i]: [None] is [undefined]. *)
Definition index {A} (l : list A) (i : Z) : option A :=
  if i <? 0 then None else l !! Z.to_nat i.

(** [Math.floor(r * n)] with the product taken exactly.  It is the value
    of the code whenever the double product [r * n] is not rounded, as for a
    dyadic [r] with few digits; it is not when the product is rounded up to
    an integer ([floor_mul_double] below). *)
Definition floor_mul (r : Q) (n : Z) : Z := Qfloor (r * inject_Z n).

(** The JS number of an integer: the nearest double, ties to even (an
    infinity beyond the largest double). *)
Definition number (n : Z) : PrimFloat.float :=
  FloatOps.SF2Prim (SpecFloat.binary_normalize FloatOps.prec FloatOps.emax n 0 false).

(** [Math.floor(f)] of a finite double; [NaN] and the infinities have no
    integer floor. *)
Definition floor (f : PrimFloat.float) : option Z :=
  match FloatOps.Prim2SF f with
  | SpecFloat.S754_zero _ => Some 0
  | SpecFloat.S754_finite s m e =>
      Some (Z.shiftl (if s then Z.neg m else Z.pos m) e)
  | _ => None
  end.

(** [Math.floor(r * n)] as the code computes it: the product is the IEEE
    product of two doubles.  The class uses the result as an array index
    only; a result that is [NaN] or infinite indexes nothing, and is given
    here as [-1], which indexes nothing either. *)
Definition floor_mul_double (r : PrimFloat.float) (n : Z) : Z :=
  match floor (PrimFloat.mul r (number n)) with
  | Some k => k
  | None => -1
  end.

End Js.

(** ** The instance *)

Inductive ReturnType := Emoji | Code | Matrix.

Record SafeCell := { x : Z; y : Z }.

Record CellTypes := { mine : string; numbers : list string }.

Record MinesweeperOpts := {
  o_rows : option Z;
  o_columns : option Z;
  o_mines : option Z;
  o_emote : option string;
  o_revealFirstCell : option bool;
  o_zeroFirstCell : option bool;
  o_spaces : option bool;
  o_returnType : option ReturnType
}.

Record Minesweeper := {
  rows : Z;
  columns : Z;
  mines : Z;
  emote : string;
  spaces : bool;
  revealFirstCell : bool;
  zeroFirstCell : bool;
  returnType : ReturnType;
  calls : nat;                 (* calls of [rng] made so far *)
  safeCells : list SafeCell;
  matrix : list (list string)
}.

Definition set_matrix (g : list (list string)) (m : Minesweeper) : Minesweeper :=
  {| rows := rows m; columns := columns m; mines := mines m; emote := emote m;
     spaces := spaces m; revealFirstCell := revealFirstCell m;
     zeroFirstCell := zeroFirstCell m; returnType := returnType m;
     calls := calls m; safeCells := safeCells m; matrix := g |}.

Definition set_safeCells (l : list SafeCell) (m : Minesweeper) : Minesweeper :=
  {| rows := rows m; columns := columns m; mines := mines m; emote := emote m;
     spaces := spaces m; revealFirstCell := revealFirstCell m;
     zeroFirstCell := zeroFirstCell m; returnType := returnType m;
     calls := calls m; safeCells := l; matrix := matrix m |}.

Definition set_calls (n : nat) (m : Minesweeper) : Minesweeper :=
  {| rows := rows m; columns := columns m; mines := mines m; emote := emote m;
     spaces := spaces m; revealFirstCell := revealFirstCell m;
     zeroFirstCell := zeroFirstCell m; returnType := returnType m;
     calls := n; safeCells := safeCells m; matrix := matrix m |}.

(** [spoilerize(str)], with the [spaces] flag of the instance as argument. *)
Definition spoilerize (sp : bool) (str : string) : string :=
  if sp then ("|| :" ++ str ++ ": ||")%string
  else ("||:" ++ str ++ ":||")%string.

Definition number_names : list string :=
  [ "zero"; "one"; "two"; "three"; "four"; "five"; "six"; "seven"; "eight" ]%string.

(** [this.types]: a readonly field the constructor computes from [emote]
    and [spaces], themselves readonly; it is the same function of them for
    the whole life of the instance. *)
Definition types (m : Minesweeper) : CellTypes :=
  {| mine := spoilerize (spaces m) (emote m);
     numbers := map (spoilerize (spaces m)) number_names |}.

(** [this.types.numbers[k]]; the empty string stands for [undefined], which
    no index the class computes can produce (see [counterAt_bounds]). *)
Definition number_at (m : Minesweeper) (k : Z) : string :=
  default ""%string (Js.index (numbers (types m)) k).

(** [x || d] on an optional number and on an optional string: [undefined],
    [0] and the empty string are falsy. *)
Definition or_num (v : option Z) (d : Z) : Z :=
  match v with
  | Some n => if n =? 0 then d else n
  | None => d
  end.

Definition or_str (v : option string) (d : string) : string :=
  match v with
  | Some s => if String.eqb s "" then d else s
  | None => d
  end.

(** [opts?.f]: [undefined] when [opts] itself is. *)
Definition opt_field {A} (opts : option MinesweeperOpts)
    (f : MinesweeperOpts -> option A) : option A :=
  match opts with
  | Some o => f o
  | None => None
  end.

Definition constructor (opts : option MinesweeperOpts) : Minesweeper :=
  {| rows := or_num (opt_field opts o_rows) 9;
     columns := or_num (opt_field opts o_columns) 9;
     mines := or_num (opt_field opts o_mines) 10;
     emote := or_str (opt_field opts o_emote) "boom";
     revealFirstCell := default false (opt_field opts o_revealFirstCell);
     zeroFirstCell := default true (opt_field opts o_zeroFirstCell);
     spaces := default true (opt_field opts o_spaces);
     returnType := default Emoji (opt_field opts o_returnType);
     calls := 0;
     safeCells := [];
     matrix := [] |}.

(** ** The monad of the methods *)

Inductive fault := TypeError | RangeError | Unmodelled.

Inductive outcome (A : Type) :=
| Done (a : A) (m : Minesweeper)      (* normal completion *)
| Throw (e : fault) (m : Minesweeper) (* an exception, and the instance it leaves *)
| OutOfFuel.

Arguments Done {A} a m.
Arguments Throw {A} e m.
Arguments OutOfFuel {A}.

Definition M (A : Type) : Type := Minesweeper -> outcome A.

Definition ret {A} (a : A) : M A := fun m => Done a m.

Definition bind {A B} (c : M A) (k : A -> M B) : M B :=
  fun m =>
    match c m with
    | Done a m' => k a m'
    | Throw e m' => Throw e m'
    | OutOfFuel => OutOfFuel
    end.

Definition throw {A} (e : fault) : M A := fun m => Throw e m.
Definition timeout {A} : M A := fun _ => OutOfFuel.
Definition this : M Minesweeper := fun m => Done m m.
Definition modify (f : Minesweeper -> Minesweeper) : M unit :=
  fun m => Done tt (f m).

Declare Scope js_scope.
Delimit Scope js_scope with js.
Notation "'let*' x ':=' c 'in' k" := (bind c (fun x => k))
  (at level 10, x name, c at level 99, k at level 200) : js_scope.
Notation "c ';;' k" := (bind c (fun _ => k))
  (at level 100, k at level 200, right associativity) : js_scope.
Open Scope js_scope.

(** [for (const a of l) acc = body(acc, a)]: a loop over a list that
    carries its local variables in [acc]. *)
Fixpoint foldM {A S} (body : S -> A -> M S) (l : list A) (acc : S) : M S :=
  match l with
  | [] => ret acc
  | a :: l' => let* acc' := body acc a in foldM body l' acc'
  end.

(** [n] consecutive integers from [lo]. *)
Fixpoint zseq (lo : Z) (n : nat) : list Z :=
  match n with
  | O => []
  | S n' => lo :: zseq (lo + 1) n'
  end.

(** [for (let i = lo; i <= hi; i++)] visits [range lo hi]. *)
Definition range (lo hi : Z) : list Z := zseq lo (Z.to_nat (hi - lo + 1)).

(** [l.map((a, i) => f(i, a))], indices counted from [i]. *)
Fixpoint mapiM {A B} (f : Z -> A -> M B) (i : Z) (l : list A) : M (list B) :=
  match l with
  | [] => ret []
  | a :: l' =>
      let* b := f i a in
      let* bs := mapiM f (i + 1) l' in
      ret (b :: bs)
  end.

(** [l.filter(p)]. *)
Fixpoint filterM {A} (p : A -> M bool) (l : list A) : M (list A) :=
  match l with
  | [] => ret []
  | a :: l' =>
      let* b := p a in
      let* r := filterM p l' in
      ret (if b then a :: r else r)
  end.

(** [this.matrix[i][j]] read: a missing row is [undefined], whose property
    access raises; a missing column is [undefined]. *)
Definition readCell (i j : Z) : M (option string) :=
  let* m := this in
  match Js.index (matrix m) i with
  | None => throw TypeError
  | Some row => ret (Js.index row j)
  end.

(** [this.matrix[i][j] = v].  Writing past the end of a row would grow the
    JS array; no method does so on a matrix it built, and the embedding
    stops there with [Unmodelled]. *)
Definition writeCell (i j : Z) (v : string) : M unit :=
  let* m := this in
  match Js.index (matrix m) i with
  | None => throw TypeError
  | Some row =>
      match Js.index row j with
      | None => throw Unmodelled
      | Some _ =>
          modify (set_matrix (<[Z.to_nat i := <[Z.to_nat j := v]> row]> (matrix m)))
      end
  end.

(** [v === s] for a cell read [v] and a string [s]. *)
Definition strict_eq (v : option string) (s : string) : bool :=
  match v with
  | Some c => String.eqb c s
  | None => false
  end.

(** ** The methods *)

(** The values of a random source: a type [V] with the one operation the
    class applies to them, [floorMul r n] for [Math.floor(r * n)]. *)
Class RandomValue (V : Type) := floorMul : V -> Z -> Z.

(** The doubles of the code. *)
#[global] Instance doubleValue : RandomValue PrimFloat.float :=
  Js.floor_mul_double.

(** The rationals, with exact products. *)
#[global] Instance exactValue : RandomValue Q := Js.floor_mul.

Section Methods.

Context {V : Type} {RV : RandomValue V}.

(** The values the random source returns, call after call. *)
Variable rng : nat -> V.

(** [Math.floor(this.rng() * n)]. *)
Definition randomIndex (n : Z) : M Z :=
  fun m => Done (floorMul (rng (calls m)) n) (set_calls (S (calls m)) m).

(** [new Array(this.columns).fill(this.types.numbers[0])]. *)
Definition newRow : M (list string) :=
  let* m := this in
  if (columns m <? 0) || (2 ^ 32 <=? columns m) then throw RangeError
  else ret (replicate (Z.to_nat (columns m)) (number_at m 0)).

Definition generateEmptyMatrix : M unit :=
  let* m := this in
  foldM (fun _ _ =>
           let* arr := newRow in
           modify (fun m => set_matrix (matrix m ++ [arr]) m))
        (range 0 (rows m - 1)) tt.

(** The loop of [plantMines], from the value [i] of its counter.  A
    collision does [i--] and the loop header [i++]. *)
Fixpoint plantMines_from (fuel : nat) (i : Z) : M unit :=
  match fuel with
  | O => timeout
  | S fuel' =>
      let* m := this in
      if i <? mines m then
        let* x := randomIndex (rows m) in
        let* y := randomIndex (columns m) in
        let* c := readCell x y in
        if strict_eq c (mine (types m)) then
          plantMines_from fuel' (i - 1 + 1)
        else
          writeCell x y (mine (types m));;
          plantMines_from fuel' (i + 1)
      else ret tt
  end.

Definition plantMines (fuel : nat) : M unit := plantMines_from fuel 0.

(** [+(guard && this.matrix[i][j] === this.types.mine)]: the cell is read
    only when the guard holds. *)
Definition mineAt (guard : bool) (i j : Z) : M Z :=
  if guard then
    let* m := this in
    let* c := readCell i j in
    ret (if strict_eq c (mine (types m)) then 1 else 0)
  else ret 0.

Definition getNumberOfMines (x y : Z) : M string :=
  let* m := this in
  let* c := readCell x y in
  if strict_eq c (mine (types m)) then ret (mine (types m))
  else
    modify (fun m => set_safeCells (safeCells m ++ [ {| x := x; y := y |} ]) m);;
    let hasLeft := 0 <? y in
    let hasRight := y <? columns m - 1 in
    let hasTop := 0 <? x in
    let hasBottom := x <? rows m - 1 in
    let* c1 := mineAt (hasTop && hasLeft) (x - 1) (y - 1) in
    let* c2 := mineAt hasTop (x - 1) y in
    let* c3 := mineAt (hasTop && hasRight) (x - 1) (y + 1) in
    let* c4 := mineAt hasLeft x (y - 1) in
    let* c5 := mineAt hasRight x (y + 1) in
    let* c6 := mineAt (hasBottom && hasLeft) (x + 1) (y - 1) in
    let* c7 := mineAt hasBottom (x + 1) y in
    let* c8 := mineAt (hasBottom && hasRight) (x + 1) (y + 1) in
    ret (number_at m (0 + c1 + c2 + c3 + c4 + c5 + c6 + c7 + c8)).

Definition getTextRepresentation (m : Minesweeper) : string :=
  let separator := if spaces m then " "%string else ""%string in
  Js.join (String (ascii_of_nat 10) "") (map (Js.join separator) (matrix m)).

Definition populate : M unit :=
  let* m := this in
  let* g := mapiM (fun x row => mapiM (fun y _ => getNumberOfMines x y) 0 row)
                  0 (matrix m) in
  modify (set_matrix g).

(** One step of the double loop of [revealSurroundings]; [zeroCells] is
    the local array. *)
Definition revealCell (zeroCells : list SafeCell) (i j : Z) : M (list SafeCell) :=
  let* m := this in
  let* v := readCell i j in
  match v with
  | None => throw TypeError             (* undefined.includes *)
  | Some s =>
      if Js.includes s "||" then
        let zeroCells' :=
          if String.eqb s (number_at m 0)
          then zeroCells ++ [ {| x := i; y := j |} ] else zeroCells in
        writeCell i j (Js.slice s 2 (-2));;
        ret zeroCells'
      else ret zeroCells
  end.

(** [revealSurroundings(c, recurse)]; the fuel bounds the depth of the
    recursion. *)
Fixpoint revealSurroundings (fuel : nat) (c : SafeCell) (recurse : bool) : M unit :=
  match fuel with
  | O => timeout
  | S fuel' =>
      let* m := this in
      let xLower := Z.max 0 (x c - 1) in
      let yLower := Z.max 0 (y c - 1) in
      let xUpper := Z.min (rows m - 1) (x c + 1) in
      let yUpper := Z.min (columns m - 1) (y c + 1) in
      let* zeroCells :=
        foldM (fun zs i => foldM (fun zs j => revealCell zs i j)
                                 (range yLower yUpper) zs)
              (range xLower xUpper) [] in
      if recurse then
        foldM (fun _ z => revealSurroundings fuel' z true) zeroCells tt
      else ret tt
  end.

(** [const safeCell = l[Math.floor(this.rng() * l.length)]] followed by the
    unmasking of that cell: the common part of the two branches of
    [revealFirst]. *)
Definition pickAndUnmask (l : list SafeCell) : M SafeCell :=
  let* k := randomIndex (Z.of_nat (length l)) in
  match Js.index l k with
  | None => throw TypeError             (* undefined.x *)
  | Some safeCell =>
      let* cell := readCell (x safeCell) (y safeCell) in
      match cell with
      | None => throw TypeError         (* undefined.slice *)
      | Some s =>
          writeCell (x safeCell) (y safeCell) (Js.slice s 2 (-2));;
          ret safeCell
      end
  end.

Definition revealFirst (fuel : nat) : M SafeCell :=
  let* m := this in
  if negb (revealFirstCell m) then ret {| x := -1; y := -1 |}
  else
    let* zeroCells :=
      filterM (fun c => let* v := readCell (x c) (y c) in
                        ret (strict_eq v (number_at m 0)))
              (safeCells m) in
    if zeroFirstCell m && (0 <? Z.of_nat (length zeroCells)) then
      let* safeCell := pickAndUnmask zeroCells in
      revealSurroundings fuel safeCell true;;
      ret {| x := x safeCell; y := y safeCell |}
    else
      let* safeCell := pickAndUnmask (safeCells m) in
      ret {| x := x safeCell; y := y safeCell |}.

Inductive output :=
| OString (s : string)
| OMatrix (g : list (list string))
| ONull.

(** [start()].  The two products of the density test are exact here.
    Those of the code are doubles: they are the same numbers as long as
    [rows * columns] and [mines * 2] do not exceed 2 ^ 53, and are rounded
    above. *)
Definition start (fuel : nat) : M output :=
  let* m := this in
  if rows m * columns m <=? mines m * 2 then ret ONull
  else
    generateEmptyMatrix;;
    plantMines fuel;;
    populate;;
    revealFirst fuel;;
    let* m' := this in
    match returnType m' with
    | Emoji => ret (OString (getTextRepresentation m'))
    | Code => ret (OString ("```" ++ getTextRepresentation m' ++ "```")%string)
    | Matrix => ret (OMatrix (matrix m'))
    end.

End Methods.


(** ** Vocabulary of the statements *)

(** The cell of a grid at a coordinate, [None] outside the grid. *)
Definition cellAt (g : list (list string)) (i j : Z) : option string :=
  match Js.index g i with
  | Some row => Js.index row j
  | None => None
  end.

(** What unmasking leaves of [spoilerize sp name]: the token [:name:],
    between the spaces of the wrapper when [sp] is set. *)
Definition unmasked_token (sp : bool) (name : string) : string :=
  let pad := if sp then " "%string else ""%string in
  (pad ++ ":" ++ name ++ ":" ++ pad)%string.

(** The test [isSpoiler] of [revealSurroundings]. *)
Definition isSpoiler (s : string) : bool := Js.includes s "||".

(** A value that yields an index of every non-empty array of at most [N]
    elements, as the numbers of [0, 1) do:
    [0 <= Math.floor(r * n) < n] for every length [n] up to [N]. *)
Definition unitValue {V} `{RandomValue V} (N : Z) (r : V) : Prop :=
  forall n, 0 < n <= N -> 0 <= floorMul r n < n.

(** The same, as a test: the lengths from 1 to [N] are tried one by one. *)
Definition unitValueb {V} `{RandomValue V} (N : nat) (r : V) : bool :=
  forallb (fun n => (0 <=? floorMul r n) && (floorMul r n <? n)) (zseq 1 N).

(** A random source that returns the same value at every call. *)
Definition constRng (q : Q) : nat -> Q := fun _ => q.

(** A random source that replays a list, then returns 0. *)
Definition listRng (l : list Q) : nat -> Q := fun n => nth n l 0%Q.

(** A random source that replays a list over and over. *)
Definition cycleRng {V} (d : V) (l : list V) : nat -> V :=
  fun n => nth (n mod length l) l d.

(** The doubles 0, 1/2 and the one next to 1/3 (0.3333333333333333), and
    the rational that double is. *)
Definition double_zero : PrimFloat.float := Js.number 0.
Definition double_half : PrimFloat.float :=
  PrimFloat.div (Js.number 1) (Js.number 2).
Definition double_third : PrimFloat.float :=
  PrimFloat.div (Js.number 1) (Js.number 3).
Definition exact_third : Q := 6004799503160661 # 18014398509481984.

(** Options with one field replaced. *)
Definition withRows (v : option Z) (o : MinesweeperOpts) : MinesweeperOpts :=
  {| o_rows := v; o_columns := o_columns o; o_mines := o_mines o;
     o_emote := o_emote o; o_revealFirstCell := o_revealFirstCell o;
     o_zeroFirstCell := o_zeroFirstCell o; o_spaces := o_spaces o;
     o_returnType := o_returnType o |}.

Definition withColumns (v : option Z) (o : MinesweeperOpts) : MinesweeperOpts :=
  {| o_rows := o_rows o; o_columns := v; o_mines := o_mines o;
     o_emote := o_emote o; o_revealFirstCell := o_revealFirstCell o;
     o_zeroFirstCell := o_zeroFirstCell o; o_spaces := o_spaces o;
     o_returnType := o_returnType o |}.

Definition withMines (v : option Z) (o : MinesweeperOpts) : MinesweeperOpts :=
  {| o_rows := o_rows o; o_columns := o_columns o; o_mines := v;
     o_emote := o_emote o; o_revealFirstCell := o_revealFirstCell o;
     o_zeroFirstCell := o_zeroFirstCell o; o_spaces := o_spaces o;
     o_returnType := o_returnType o |}.

Definition withEmote (v : option string) (o : MinesweeperOpts) : MinesweeperOpts :=
  {| o_rows := o_rows o; o_columns := o_columns o; o_mines := o_mines o;
     o_emote := v; o_revealFirstCell := o_revealFirstCell o;
     o_zeroFirstCell := o_zeroFirstCell o; o_spaces := o_spaces o;
     o_returnType := o_returnType o |}.

(** The grid of the instance has [rows] rows of [columns] cells. *)
Definition shape (m : Minesweeper) : Prop :=
  Z.of_nat (length (matrix m)) = rows m /\
  Forall (fun row => Z.of_nat (length row) = columns m) (matrix m).

Definition inGrid (m : Minesweeper) (i j : Z) : Prop :=
  0 <= i < rows m /\ 0 <= j < columns m.

Definition inGridb (m : Minesweeper) (i j : Z) : bool :=
  (0 <=? i) && (i <? rows m) && (0 <=? j) && (j <? columns m).

(** The cell at [(i, j)] holds the mine marker. *)
Definition isMineAt (m : Minesweeper) (i j : Z) : bool :=
  strict_eq (cellAt (matrix m) i j) (mine (types m)).

(** The eight steps to the Moore neighbours of a cell. *)
Definition moore_offsets : list (Z * Z) :=
  [ (-1, -1); (-1, 0); (-1, 1); (0, -1); (0, 1); (1, -1); (1, 0); (1, 1) ].

(** The specification's count: the number of Moore neighbours of
    [(i, j)] that lie in the grid and hold the mine marker. *)
Definition mooreMines (m : Minesweeper) (i j : Z) : Z :=
  Z.of_nat (length (List.filter
    (fun d => inGridb m (i + fst d) (j + snd d) && isMineAt m (i + fst d) (j + snd d))
    moore_offsets)).

(** The counter [getNumberOfMines] computes at a cell, as a function of
    the instance. *)
Definition b2z (b : bool) : Z := if b then 1 else 0.

Definition counterAt (m : Minesweeper) (i j : Z) : Z :=
  let hasLeft := 0 <? j in
  let hasRight := j <? columns m - 1 in
  let hasTop := 0 <? i in
  let hasBottom := i <? rows m - 1 in
  0 + b2z (hasTop && hasLeft && isMineAt m (i - 1) (j - 1))
    + b2z (hasTop && isMineAt m (i - 1) j)
    + b2z (hasTop && hasRight && isMineAt m (i - 1) (j + 1))
    + b2z (hasLeft && isMineAt m i (j - 1))
    + b2z (hasRight && isMineAt m i (j + 1))
    + b2z (hasBottom && hasLeft && isMineAt m (i + 1) (j - 1))
    + b2z (hasBottom && isMineAt m (i + 1) j)
    + b2z (hasBottom && hasRight && isMineAt m (i + 1) (j + 1)).

(** The symbol [getNumberOfMines] returns at a cell. *)
Definition symbolAt (m : Minesweeper) (i j : Z) : string :=
  if isMineAt m i j then mine (types m) else number_at m (counterAt m i j).

(** The safe cells [getNumberOfMines] records along row [i]. *)
Definition safeInRow (m : Minesweeper) (i : Z) (js : list Z) : list SafeCell :=
  flat_map (fun j => if isMineAt m i j then [] else [ {| x := i; y := j |} ]) js.

(** The grid and the safe cells [populate] computes. *)
Definition populatedMatrix (m : Minesweeper) : list (list string) :=
  map (fun i => map (symbolAt m i) (zseq 0 (Z.to_nat (columns m))))
      (zseq 0 (Z.to_nat (rows m))).

Definition populatedSafe (m : Minesweeper) : list SafeCell :=
  flat_map (fun i => safeInRow m i (zseq 0 (Z.to_nat (columns m))))
           (zseq 0 (Z.to_nat (rows m))).

(** The grid after [this.matrix[i][j] = v], for a cell of the grid. *)
Definition gridSet (g : list (list string)) (i j : Z) (v : string) : list (list string) :=
  match Js.index g i with
  | Some row => <[Z.to_nat i := <[Z.to_nat j := v]> row]> g
  | None => g
  end.

(** The number of cells of a grid that hold the string [s]. *)
Definition occ (s : string) (g : list (list string)) : nat :=
  length (List.filter (String.eqb s) (concat g)).

(** The cell is in the grid and holds an unmasked symbol. *)
Definition unmaskedAt (m : Minesweeper) (i j : Z) : bool :=
  match cellAt (matrix m) i j with
  | Some s => negb (isSpoiler s)
  | None => false
  end.

(** The cell holds the masked zero. *)
Definition isZeroAt (m : Minesweeper) (i j : Z) : bool :=
  strict_eq (cellAt (matrix m) i j) (number_at m 0).

(** The instances differ at most in the mutable fields. *)
Definition sameConfig (m m' : Minesweeper) : Prop :=
  rows m' = rows m /\ columns m' = columns m /\ mines m' = mines m /\
  emote m' = emote m /\ spaces m' = spaces m /\
  revealFirstCell m' = revealFirstCell m /\ zeroFirstCell m' = zeroFirstCell m /\
  returnType m' = returnType m.

(** Chebyshev distance between two coordinates. *)
Definition cheb (a b : SafeCell) : Z :=
  Z.max (Z.abs (x a - x b)) (Z.abs (y a - y b)).

Definition adjacent (a b : SafeCell) : Prop := cheb a b = 1.

(** [zeroPath m o c]: [c] is reached from [o] by steps between adjacent
    cells, every cell stepped on holding the zero. *)
Inductive zeroPath (m : Minesweeper) (o : SafeCell) : SafeCell -> Prop :=
| zp_origin : zeroPath m o o
| zp_step (c c' : SafeCell) :
    zeroPath m o c -> adjacent c c' -> isZeroAt m (x c') (y c') = true ->
    zeroPath m o c'.

(** The opening of [o]: the zero cells reached from [o], and the cells
    adjacent to one of them. *)
Definition inOpening (m : Minesweeper) (o c : SafeCell) : Prop :=
  exists z, zeroPath m o z /\ (c = z \/ adjacent z c).

(** A cell of the grid that is not a mine and has no mine around it. *)
Definition zeroCell (m0 : Minesweeper) (c : SafeCell) : Prop :=
  inGrid m0 (x c) (y c) /\ isMineAt m0 (x c) (y c) = false /\
  counterAt m0 (x c) (y c) = 0.

(** The cells [revealSurroundings(z)] visits: those of the grid at distance
    at most 1 from [z]. *)
Definition box (m0 : Minesweeper) (z c : SafeCell) : Prop :=
  inGrid m0 (x c) (y c) /\ cheb z c <= 1.

Definition boxCells (m : Minesweeper) (z : SafeCell) : list SafeCell :=
  flat_map (fun i => map (fun j => {| x := i; y := j |})
                         (range (Z.max 0 (y z - 1)) (Z.min (columns m - 1) (y z + 1))))
           (range (Z.max 0 (x z - 1)) (Z.min (rows m - 1) (x z + 1))).

(** [s] is the field populated from [m0] with some of its safe cells
    unmasked. *)
Definition revealState (m0 s : Minesweeper) : Prop :=
  sameConfig m0 s /\ shape s /\
  forall i j, inGrid m0 i j ->
    cellAt (matrix s) i j = Some (symbolAt m0 i j) \/
    (isMineAt m0 i j = false /\
     cellAt (matrix s) i j = Some (Js.slice (symbolAt m0 i j) 2 (-2))).

(** The number of masked zeros left: the measure of the recursion. *)
Definition mu (m0 s : Minesweeper) : nat := occ (number_at m0 0) (matrix s).

Definition frame (s s' : Minesweeper) : Prop :=
  calls s' = calls s /\ safeCells s' = safeCells s.

(** Every cell around [z] is unmasked. *)
Definition closedAt (m0 s : Minesweeper) (z : SafeCell) : Prop :=
  forall c, box m0 z c -> unmaskedAt s (x c) (y c) = true.

(** What a call [revealSurroundings(z)] achieves from [s] to [s']. *)
Definition rsPost (m0 m1 s : Minesweeper) (z : SafeCell) (s' : Minesweeper) : Prop :=
  revealState m0 s' /\ frame s s' /\
  (forall c, unmaskedAt s (x c) (y c) = true -> unmaskedAt s' (x c) (y c) = true) /\
  (forall c, unmaskedAt s' (x c) (y c) = true ->
     unmaskedAt s (x c) (y c) = true \/
     exists z', zeroPath m1 z z' /\ box m0 z' c) /\
  closedAt m0 s' z /\
  (forall z', zeroCell m0 z' -> unmaskedAt s' (x z') (y z') = true ->
     unmaskedAt s (x z') (y z') = true \/ closedAt m0 s' z') /\
  (mu m0 s' <= mu m0 s)%nat.

(** The invariant of the double loop of [revealSurroundings], started in
    [s]: [done] are the cells visited so far, [zs] the local array. *)
Definition boxInv (m0 s : Minesweeper) (done zs : list SafeCell) (t : Minesweeper) : Prop :=
  revealState m0 t /\ frame s t /\
  (forall c, In c done -> unmaskedAt t (x c) (y c) = true) /\
  (forall c, unmaskedAt s (x c) (y c) = true -> unmaskedAt t (x c) (y c) = true) /\
  (forall c, unmaskedAt t (x c) (y c) = true ->
     unmaskedAt s (x c) (y c) = true \/ In c done) /\
  (forall c, In c zs <->
     In c done /\ unmaskedAt s (x c) (y c) = false /\ counterAt m0 (x c) (y c) = 0) /\
  (mu m0 t + length zs <= mu m0 s)%nat.

(** The invariant of the loop of [revealSurroundings] over its local array,
    started in [s1]: [done] are the zeros already recursed on. *)
Definition childInv (m0 m1 s1 : Minesweeper) (done : list SafeCell) (t : Minesweeper) : Prop :=
  revealState m0 t /\ frame s1 t /\
  (forall c, unmaskedAt s1 (x c) (y c) = true -> unmaskedAt t (x c) (y c) = true) /\
  (forall c, unmaskedAt t (x c) (y c) = true ->
     unmaskedAt s1 (x c) (y c) = true \/
     exists z0 z', In z0 done /\ zeroPath m1 z0 z' /\ box m0 z' c) /\
  (forall z0, In z0 done -> closedAt m0 t z0) /\
  (forall z', zeroCell m0 z' -> unmaskedAt t (x z') (y z') = true ->
     unmaskedAt s1 (x z') (y z') = true \/ closedAt m0 t z') /\
  (mu m0 t <= mu m0 s1)%nat.

(** The instance [populate] leaves, from a fresh list of safe cells. *)
Definition populated (m0 : Minesweeper) : Minesweeper :=
  set_matrix (populatedMatrix m0) (set_safeCells (populatedSafe m0) m0).

(** The instance after [revealFirst] has drawn [o] in the populated field
    and unmasked it. *)
Definition firstUnmasked (m0 : Minesweeper) (o : SafeCell) : Minesweeper :=
  set_matrix (gridSet (matrix (populated m0)) (x o) (y o)
                (Js.slice (symbolAt m0 (x o) (y o)) 2 (-2)))
    (set_calls (S (calls m0)) (populated m0)).

(** Equality of coordinates is decidable. *)
Definition SafeCell_eq_dec (a b : SafeCell) : {a = b} + {a <> b}.
Proof. decide equality; apply Z.eq_dec. Defined.

(** The cell [plantMines] draws at its [k]-th attempt, when the random
    source has been called [c0] times before the loop. *)
Definition attemptAt {V} `{RandomValue V} (rng : nat -> V) (c0 : nat)
    (R C : Z) (k : nat) : SafeCell :=
  {| x := floorMul (rng (c0 + 2 * k)%nat) R;
     y := floorMul (rng (c0 + 2 * k + 1)%nat) C |}.

(** The cells of the first [n] attempts of [plantMines] started on [m]. *)
Definition attempts {V} `{RandomValue V} (rng : nat -> V) (m : Minesweeper)
    (n : nat) : list SafeCell :=
  map (attemptAt rng (calls m) (rows m) (columns m)) (seq 0 n).

(** The number of distinct cells among them. *)
Definition distinctAttempts {V} `{RandomValue V} (rng : nat -> V)
    (m : Minesweeper) (n : nat) : nat :=
  length (nodup SafeCell_eq_dec (attempts rng m n)).


(** Options for a field of the given size with the matrix as result. *)
Definition fieldOpts (r c n : Z) (reveal : bool) : MinesweeperOpts :=
  {| o_rows := Some r; o_columns := Some c; o_mines := Some n; o_emote := None;
     o_revealFirstCell := Some reveal; o_zeroFirstCell := None;
     o_spaces := None; o_returnType := Some Matrix |}.

(** A 3 x 3 field after [plantMines], its mine in the corner (0, 0). *)
Definition cornerField : Minesweeper :=
  let c := constructor (Some (fieldOpts 3 3 1 true)) in
  let z := number_at c 0 in
  set_matrix [ [mine (types c); z; z]; [z; z; z]; [z; z; z] ] c.

(** A 3 x 3 field after [plantMines], its mine in the centre (1, 1). *)
Definition centreField : Minesweeper :=
  let c := constructor (Some (fieldOpts 3 3 1 true)) in
  let z := number_at c 0 in
  set_matrix [ [z; z; z]; [z; mine (types c); z]; [z; z; z] ] c.



(** * Properties *)

(** ** Strings: wrapping and unwrapping *)

Lemma substring_all (s t : string) :
  substring 0 (String.length s) (s ++ t) = s.
Proof.
  induction s as [|a s IH]; simpl.
  - destruct t; reflexivity.
  - now rewrite IH.
Qed.

Lemma string_length_app (s t : string) :
  String.length (s ++ t) = (String.length s + String.length t)%nat.
Proof. induction s as [|a s IH]; simpl; [reflexivity | now rewrite IH]. Qed.

Lemma slice_2_2 (a b c d : ascii) (s : string) :
  Js.slice (String a (String b (s ++ String c (String d ""))))%string 2 (-2) = s.
Proof.
  unfold Js.slice. cbn [String.length].
  rewrite string_length_app. cbn [String.length].
  replace (2 <? 0) with false by reflexivity.
  replace (-2 <? 0) with true by reflexivity.
  set (n := String.length s).
  replace (Z.min 2 (Z.of_nat (S (S (n + 2))))) with 2 by lia.
  replace (Z.max (Z.of_nat (S (S (n + 2))) + -2) 0) with (Z.of_nat n + 2) by lia.
  replace (Z.to_nat 2) with 2%nat by reflexivity.
  replace (Z.to_nat (Z.of_nat n + 2 - 2)) with n by lia.
  cbn [substring]. apply substring_all.
Qed.

Lemma string_app_assoc (s t u : string) : ((s ++ t) ++ u = s ++ (t ++ u))%string.
Proof. induction s as [|a s IH]; simpl; [reflexivity | now rewrite IH]. Qed.

(** C5, as the code has it: stripping two characters from each end of
    [spoilerize(name)] removes the two bars on each side and nothing else,
    so it yields [:name:] when [spaces] is off and [ :name: ], with the
    spaces of the wrapper, when [spaces] is on. *)
Theorem unmask_spoilerize (sp : bool) (name : string) :
  Js.slice (spoilerize sp name) 2 (-2) = unmasked_token sp name.
Proof.
  destruct sp; unfold spoilerize, unmasked_token.
  - change ("|| :" ++ name ++ ": ||")%string
      with (String "|" (String "|" (" :" ++ name ++ ": ||")))%string.
    replace (" :" ++ name ++ ": ||")%string
      with ((" " ++ ":" ++ name ++ ":" ++ " ") ++ "||")%string.
    + apply slice_2_2.
    + rewrite !string_app_assoc. reflexivity.
  - change ("||:" ++ name ++ ":||")%string
      with (String "|" (String "|" (":" ++ name ++ ":||")))%string.
    replace (":" ++ name ++ ":||")%string
      with (("" ++ ":" ++ name ++ ":" ++ "") ++ "||")%string.
    + apply slice_2_2.
    + rewrite !string_app_assoc. reflexivity.
Qed.

(** C5, as stated, fails when [spaces] is on: the result keeps the spaces. *)
Lemma unmask_spoilerize_spaces_not_bare :
  Js.slice (spoilerize true "zero") 2 (-2) <> (":" ++ "zero" ++ ":")%string.
Proof. vm_compute. discriminate. Qed.

(** ** The constructor *)

(** C10: a falsy [rows], [columns], [mines] or [emote] (the number 0, the
    empty string, or a missing option) is replaced by the default 9, 9, 10
    or "boom", whatever the other options are: an explicit [mines = 0] gives
    an instance with 10 mines, not 0.  A positive number is kept. *)
Theorem constructor_falsy_defaults (o : MinesweeperOpts) :
  (mines (constructor (Some (withMines (Some 0) o))) = 10 /\
   rows (constructor (Some (withRows (Some 0) o))) = 9 /\
   columns (constructor (Some (withColumns (Some 0) o))) = 9 /\
   emote (constructor (Some (withEmote (Some ""%string) o))) = "boom"%string) /\
  (mines (constructor (Some (withMines None o))) = 10 /\
   rows (constructor (Some (withRows None o))) = 9 /\
   columns (constructor (Some (withColumns None o))) = 9 /\
   emote (constructor (Some (withEmote None o))) = "boom"%string) /\
  (mines (constructor None) = 10 /\ rows (constructor None) = 9 /\
   columns (constructor None) = 9 /\ emote (constructor None) = "boom"%string) /\
  (forall p, mines (constructor (Some (withMines (Some (Z.pos p)) o))) = Z.pos p) /\
  (forall p, rows (constructor (Some (withRows (Some (Z.pos p)) o))) = Z.pos p) /\
  (forall p, columns (constructor (Some (withColumns (Some (Z.pos p)) o))) = Z.pos p).
Proof. cbn. repeat split; reflexivity. Qed.

(** ** [start] on a field that is too dense *)

(** C4: when [rows * columns <= 2 * mines], [start] returns [null] and
    leaves the instance as it was: no row is pushed, no mine planted, the
    random source is not called.  On a fresh instance the matrix stays
    empty. *)
Theorem start_too_dense (rng : nat -> Q) (fuel : nat) (m : Minesweeper) :
  rows m * columns m <= 2 * mines m ->
  start rng fuel m = Done ONull m.
Proof.
  intros H. unfold start, bind, this, ret.
  destruct (Z.leb_spec (rows m * columns m) (mines m * 2)); [reflexivity | lia].
Qed.

Lemma start_too_dense_witness :
  let m := constructor (Some {| o_rows := Some 3; o_columns := Some 3;
                                o_mines := Some 5; o_emote := None;
                                o_revealFirstCell := None; o_zeroFirstCell := None;
                                o_spaces := None; o_returnType := Some Matrix |}) in
  start (constRng 0) 0 m = Done ONull m /\ matrix m = [].
Proof.
  cbv zeta. split; [apply start_too_dense; vm_compute; discriminate | reflexivity].
Defined.

(** ** [revealFirst] on an empty list of safe cells *)

Lemma revealFirst_no_safeCells (rng : nat -> Q) (fuel : nat) (m : Minesweeper) :
  revealFirstCell m = true -> safeCells m = [] ->
  revealFirst rng fuel m = Throw TypeError (set_calls (S (calls m)) m).
Proof.
  intros H1 H2. unfold revealFirst, bind, this, ret. rewrite H1, H2. cbn.
  rewrite andb_false_r. unfold pickAndUnmask, bind, randomIndex.
  cbn. unfold Js.index.
  destruct (_ <? 0); reflexivity.
Qed.

(** C6 fails on the code: with [revealFirstCell] on and no safe cell,
    [revealFirst] takes the branch that indexes [safeCells] and dereferences
    the [undefined] it gets: it raises [TypeError].  Here on a fresh
    instance, whose list of safe cells is empty. *)
Theorem revealFirst_empty_throws :
  let m := constructor (Some {| o_rows := None; o_columns := None;
                                o_mines := None; o_emote := None;
                                o_revealFirstCell := Some true;
                                o_zeroFirstCell := None;
                                o_spaces := None; o_returnType := None |}) in
  safeCells m = [] /\
  forall fuel, revealFirst (constRng (1 # 2)) fuel m
               = Throw TypeError (set_calls 1 m).
Proof.
  cbv zeta. split; [reflexivity|]. intros fuel.
  now rewrite revealFirst_no_safeCells.
Qed.

(** [start] reaches the same fault by itself when the field has no cell:
    with a negative number of rows (and of mines, to pass the density
    test) no row is built, no cell is safe, and revealing the first cell
    raises [TypeError]. *)
Example start_no_safe_cell :
  let m := constructor (Some (fieldOpts (-1) 5 (-3) true)) in
  start (constRng (1 # 2)) 5 m = Throw TypeError (set_calls 1 m).
Proof. reflexivity. Qed.

(** ** Sources that yield the same indices *)

Lemma bind_ext {A B} (c1 c2 : M A) (k1 k2 : A -> M B) (m : Minesweeper) :
  c1 m = c2 m -> (forall a m', k1 a m' = k2 a m') ->
  bind c1 k1 m = bind c2 k2 m.
Proof.
  intros Hc Hk. unfold bind. rewrite Hc.
  destruct (c2 m); [apply Hk | reflexivity | reflexivity].
Qed.

Section SameIndices.

Context {V1 V2 : Type} {RV1 : RandomValue V1} {RV2 : RandomValue V2}.
Variable rng1 : nat -> V1.
Variable rng2 : nat -> V2.
Hypothesis same : forall k n, floorMul (rng1 k) n = floorMul (rng2 k) n.

Lemma randomIndex_ext (n : Z) (m : Minesweeper) :
  randomIndex rng1 n m = randomIndex rng2 n m.
Proof. unfold randomIndex. now rewrite same. Qed.

Lemma plantMines_from_ext (fuel : nat) :
  forall i m, plantMines_from rng1 fuel i m = plantMines_from rng2 fuel i m.
Proof.
  induction fuel as [|fuel IH]; intros i m; [reflexivity|].
  cbn [plantMines_from]. apply bind_ext; [reflexivity|]. intros m0 m1.
  destruct (i <? mines m0); [|reflexivity].
  apply bind_ext; [apply randomIndex_ext|]. intros x1 m2.
  apply bind_ext; [apply randomIndex_ext|]. intros y1 m3.
  apply bind_ext; [reflexivity|]. intros c m4.
  destruct (strict_eq c _); [apply IH|].
  apply bind_ext; [reflexivity|]. intros _ m5. apply IH.
Qed.

Lemma pickAndUnmask_ext (l : list SafeCell) (m : Minesweeper) :
  pickAndUnmask rng1 l m = pickAndUnmask rng2 l m.
Proof.
  unfold pickAndUnmask. apply bind_ext; [apply randomIndex_ext | reflexivity].
Qed.

Lemma revealFirst_ext (fuel : nat) (m : Minesweeper) :
  revealFirst rng1 fuel m = revealFirst rng2 fuel m.
Proof.
  unfold revealFirst. apply bind_ext; [reflexivity|]. intros m0 m1.
  destruct (negb _); [reflexivity|].
  apply bind_ext; [reflexivity|]. intros zs m2.
  destruct (_ && _).
  - apply bind_ext; [apply pickAndUnmask_ext | reflexivity].
  - apply bind_ext; [apply pickAndUnmask_ext | reflexivity].
Qed.

(** The methods read a value of the source through the indices it yields
    only: a statement proved for a source of rationals holds for every
    source of doubles whose rounded products have the same floors. *)
Lemma start_ext (fuel : nat) (m : Minesweeper) :
  start rng1 fuel m = start rng2 fuel m.
Proof.
  unfold start. apply bind_ext; [reflexivity|]. intros m0 m1.
  destruct (_ <=? _); [reflexivity|].
  apply bind_ext; [reflexivity|]. intros _ m2.
  apply bind_ext; [apply plantMines_from_ext|]. intros _ m3.
  apply bind_ext; [reflexivity|]. intros _ m4.
  apply bind_ext; [apply revealFirst_ext | reflexivity].
Qed.

End SameIndices.

(** ** Grids and indices *)

Lemma index_Some {A} (l : list A) (i : Z) (a : A) :
  Js.index l i = Some a <-> 0 <= i /\ l !! Z.to_nat i = Some a.
Proof.
  unfold Js.index. destruct (Z.ltb_spec i 0); split; intros H'.
  - discriminate.
  - destruct H'; lia.
  - split; [lia | exact H'].
  - now destruct H'.
Qed.

Lemma index_lt {A} (l : list A) (i : Z) :
  0 <= i < Z.of_nat (length l) -> exists a, Js.index l i = Some a.
Proof.
  intros H. destruct (lookup_lt_is_Some_2 l (Z.to_nat i)) as [a Ha]; [lia|].
  exists a. apply index_Some. split; [lia | exact Ha].
Qed.

Lemma index_Some_lt {A} (l : list A) (i : Z) (a : A) :
  Js.index l i = Some a -> 0 <= i < Z.of_nat (length l).
Proof.
  intros [H0 H]%index_Some. apply lookup_lt_Some in H. lia.
Qed.

Lemma index_cons_succ {A} (a : A) (l : list A) (i : Z) :
  0 <= i -> Js.index (a :: l) (i + 1) = Js.index l i.
Proof.
  intros H. unfold Js.index.
  destruct (Z.ltb_spec (i + 1) 0), (Z.ltb_spec i 0); try lia.
  replace (Z.to_nat (i + 1)) with (S (Z.to_nat i)) by lia. reflexivity.
Qed.

Lemma zseq_length (lo : Z) (n : nat) : length (zseq lo n) = n.
Proof. revert lo. induction n as [|n IH]; intros lo; simpl; [easy | now rewrite IH]. Qed.

Lemma zseq_In (lo : Z) (n : nat) (k : Z) :
  In k (zseq lo n) <-> lo <= k < lo + Z.of_nat n.
Proof.
  revert lo. induction n as [|n IH]; intros lo; simpl; [lia|].
  rewrite IH. lia.
Qed.

Lemma index_map_zseq {A} (f : Z -> A) (lo : Z) (n : nat) (i : Z) :
  0 <= i < Z.of_nat n -> Js.index (map f (zseq lo n)) i = Some (f (lo + i)).
Proof.
  revert lo i. induction n as [|n IH]; intros lo i H; [lia|].
  destruct (Z.eq_dec i 0) as [->|Hi].
  - simpl. now rewrite Z.add_0_r.
  - replace i with ((i - 1) + 1) at 1 by lia. simpl.
    rewrite index_cons_succ by lia. rewrite IH by lia. f_equal. f_equal. lia.
Qed.

Lemma cellAt_Some_inGrid (m : Minesweeper) (i j : Z) :
  shape m -> inGrid m i j -> exists s, cellAt (matrix m) i j = Some s.
Proof.
  intros [Hr Hc] [Hi Hj]. unfold cellAt.
  destruct (index_lt (matrix m) i) as [row Hrow]; [lia|]. rewrite Hrow.
  apply index_lt. apply index_Some in Hrow as [_ Hrow].
  rewrite Forall_lookup in Hc. rewrite (Hc _ _ Hrow). lia.
Qed.

Lemma inGridb_spec (m : Minesweeper) (i j : Z) :
  inGridb m i j = true <-> inGrid m i j.
Proof. unfold inGridb, inGrid. lia. Qed.

Lemma cellAt_None_outside (m : Minesweeper) (i j : Z) :
  shape m -> ~ inGrid m i j -> cellAt (matrix m) i j = None.
Proof.
  intros [Hr Hc] H. unfold cellAt.
  destruct (Js.index (matrix m) i) as [row|] eqn:Hrow; [|reflexivity].
  destruct (Js.index row j) as [s|] eqn:Hs; [|reflexivity].
  exfalso. apply H. apply index_Some_lt in Hs.
  pose proof (index_Some_lt _ _ _ Hrow) as Hi.
  apply index_Some in Hrow as [_ Hrow].
  rewrite Forall_lookup in Hc. rewrite (Hc _ _ Hrow) in Hs.
  unfold inGrid. lia.
Qed.

(** ** The monad *)

Lemma readCell_inGrid (m : Minesweeper) (i j : Z) :
  shape m -> inGrid m i j ->
  readCell i j m = Done (cellAt (matrix m) i j) m.
Proof.
  intros Hs Hg. destruct (cellAt_Some_inGrid m i j Hs Hg) as [s Hc].
  unfold readCell, bind, this, cellAt in *.
  destruct (Js.index (matrix m) i); [reflexivity | discriminate].
Qed.
Lemma mineAt_ok (m : Minesweeper) (guard : bool) (i j : Z) :
  shape m -> (guard = true -> inGrid m i j) ->
  mineAt guard i j m = Done (b2z (guard && isMineAt m i j)) m.
Proof.
  intros Hs Hg. unfold mineAt. destruct guard; [|reflexivity].
  unfold bind, this. rewrite readCell_inGrid by auto. reflexivity.
Qed.

Lemma getNumberOfMines_ok (m : Minesweeper) (i j : Z) :
  shape m -> inGrid m i j ->
  getNumberOfMines i j m
  = Done (symbolAt m i j)
         (if isMineAt m i j then m
          else set_safeCells (safeCells m ++ [ {| x := i; y := j |} ]) m).
Proof.
  intros Hs Hg. unfold getNumberOfMines, symbolAt.
  unfold bind at 1. unfold this at 1.
  unfold bind at 1. rewrite readCell_inGrid by auto.
  fold (isMineAt m i j). destruct (isMineAt m i j) eqn:Hm; [reflexivity|].
  unfold bind at 1. unfold modify at 1.
  set (m' := set_safeCells _ m).
  assert (Hs' : shape m') by exact Hs.
  destruct Hg as [Hi Hj].
  repeat (unfold bind at 1; rewrite mineAt_ok;
          [ | exact Hs' | unfold inGrid; cbn [rows columns m' set_safeCells]; lia ]).
  reflexivity.
Qed.
(** ** [populate] *)

Lemma set_safeCells_same (m : Minesweeper) : set_safeCells (safeCells m) m = m.
Proof. now destruct m. Qed.

Lemma populate_row (m : Minesweeper) (i : Z) {A} (suffix : list A) :
  shape m -> 0 <= i < rows m ->
  forall j0 l, 0 <= j0 -> j0 + Z.of_nat (length suffix) <= columns m ->
  mapiM (fun y _ => getNumberOfMines i y) j0 suffix (set_safeCells l m)
  = Done (map (symbolAt m i) (zseq j0 (length suffix)))
         (set_safeCells (l ++ safeInRow m i (zseq j0 (length suffix))) m).
Proof.
  intros Hs Hi.
  induction suffix as [|a suffix IH]; intros j0 l Hj0 Hlen.
  - cbn. now rewrite app_nil_r.
  - cbn [mapiM length zseq map]. cbn [length] in Hlen.
    unfold bind at 1.
    rewrite getNumberOfMines_ok; [| exact Hs | change (inGrid m i j0); split; lia].
    change (isMineAt (set_safeCells l m) i j0) with (isMineAt m i j0).
    change (symbolAt (set_safeCells l m) i j0) with (symbolAt m i j0).
    unfold safeInRow. cbn [flat_map]. fold (safeInRow m i (zseq (j0 + 1) (length suffix))).
    destruct (isMineAt m i j0).
    + unfold bind at 1. rewrite IH by lia. reflexivity.
    + change (set_safeCells (safeCells (set_safeCells l m) ++ [ {| x := i; y := j0 |} ])
                (set_safeCells l m))
        with (set_safeCells (l ++ [ {| x := i; y := j0 |} ]) m).
      unfold bind at 1. rewrite IH by lia. unfold ret.
      now rewrite <- app_assoc.
Qed.
Lemma populate_rows (m : Minesweeper) (suffix : list (list string)) :
  shape m ->
  Forall (fun row => Z.of_nat (length row) = columns m) suffix ->
  forall i0 l, 0 <= i0 -> i0 + Z.of_nat (length suffix) <= rows m ->
  mapiM (fun x row => mapiM (fun y _ => getNumberOfMines x y) 0 row)
        i0 suffix (set_safeCells l m)
  = Done (map (fun i => map (symbolAt m i) (zseq 0 (Z.to_nat (columns m))))
              (zseq i0 (length suffix)))
         (set_safeCells
            (l ++ flat_map (fun i => safeInRow m i (zseq 0 (Z.to_nat (columns m))))
                           (zseq i0 (length suffix))) m).
Proof.
  intros Hs Hall.
  induction Hall as [|row suffix Hrow Hall IH]; intros i0 l Hi0 Hlen.
  - cbn. now rewrite app_nil_r.
  - cbn [mapiM length zseq map flat_map]. cbn [length] in Hlen.
    unfold bind at 1. rewrite populate_row; [| exact Hs | lia | lia | lia].
    unfold bind at 1. rewrite IH by lia. unfold ret.
    replace (length row) with (Z.to_nat (columns m)) by lia.
    now rewrite <- app_assoc.
Qed.

Lemma populate_ok (m : Minesweeper) :
  shape m ->
  populate m
  = Done tt (set_matrix (populatedMatrix m)
               (set_safeCells (safeCells m ++ populatedSafe m) m)).
Proof.
  intros Hs. unfold populate. unfold bind at 1. unfold this at 1.
  unfold bind at 1.
  pose proof Hs as [Hr Hc].
  pose proof (populate_rows m (matrix m) Hs Hc 0 (safeCells m)) as H.
  rewrite set_safeCells_same in H. rewrite H by lia.
  unfold modify, populatedMatrix, populatedSafe.
  replace (length (matrix m)) with (Z.to_nat (rows m)) by lia.
  reflexivity.
Qed.

Lemma populatedMatrix_cell (m : Minesweeper) (i j : Z) :
  inGrid m i j -> cellAt (populatedMatrix m) i j = Some (symbolAt m i j).
Proof.
  intros [Hi Hj]. unfold cellAt, populatedMatrix.
  rewrite index_map_zseq by lia. rewrite index_map_zseq by lia.
  reflexivity.
Qed.

Lemma populated_shape (m : Minesweeper) (l : list SafeCell) :
  0 <= rows m -> 0 <= columns m ->
  shape (set_matrix (populatedMatrix m) (set_safeCells l m)).
Proof.
  intros Hr Hc. split; cbn [matrix rows columns set_matrix set_safeCells].
  - unfold populatedMatrix. rewrite length_map, zseq_length. lia.
  - unfold populatedMatrix. apply List.Forall_forall. intros row Hin.
    apply in_map_iff in Hin as [i [<- _]].
    rewrite length_map, zseq_length. lia.
Qed.

Lemma shape_nonneg (m : Minesweeper) : shape m -> 0 <= rows m.
Proof. intros [Hr _]. lia. Qed.

Lemma populatedSafe_In (m : Minesweeper) (c : SafeCell) :
  In c (populatedSafe m) <-> inGrid m (x c) (y c) /\ isMineAt m (x c) (y c) = false.
Proof.
  unfold populatedSafe, safeInRow. rewrite in_flat_map. split.
  - intros [i [Hi Hc]]. apply in_flat_map in Hc as [j [Hj Hc]].
    apply zseq_In in Hi, Hj.
    destruct (isMineAt m i j) eqn:Hm; [destruct Hc|].
    destruct Hc as [<-|[]]. cbn. unfold inGrid. split; [lia | exact Hm].
  - intros [[Hi Hj] Hm]. exists (x c). split; [apply zseq_In; lia|].
    apply in_flat_map. exists (y c). split; [apply zseq_In; lia|].
    rewrite Hm. left. now destruct c.
Qed.

(** ** The counter of [getNumberOfMines] and the Moore count *)

Lemma filter_length_cons {A} (p : A -> bool) (a : A) (l : list A) :
  Z.of_nat (length (List.filter p (a :: l)))
  = b2z (p a) + Z.of_nat (length (List.filter p l)).
Proof. cbn [List.filter]. unfold b2z. destruct (p a); cbn [length]; lia. Qed.

Lemma counterAt_moore (m : Minesweeper) (i j : Z) :
  inGrid m i j -> counterAt m i j = mooreMines m i j.
Proof.
  intros [Hi Hj]. unfold counterAt, mooreMines, moore_offsets.
  rewrite !filter_length_cons. cbn [List.filter length fst snd].
  replace (i + 0) with i by lia. replace (j + 0) with j by lia.
  replace (i + -1) with (i - 1) by lia. replace (j + -1) with (j - 1) by lia.
  replace (inGridb m (i - 1) (j - 1)) with ((0 <? i) && (0 <? j))
    by (unfold inGridb; lia).
  replace (inGridb m (i - 1) j) with (0 <? i) by (unfold inGridb; lia).
  replace (inGridb m (i - 1) (j + 1)) with ((0 <? i) && (j <? columns m - 1))
    by (unfold inGridb; lia).
  replace (inGridb m i (j - 1)) with (0 <? j) by (unfold inGridb; lia).
  replace (inGridb m i (j + 1)) with (j <? columns m - 1) by (unfold inGridb; lia).
  replace (inGridb m (i + 1) (j - 1)) with ((i <? rows m - 1) && (0 <? j))
    by (unfold inGridb; lia).
  replace (inGridb m (i + 1) j) with (i <? rows m - 1) by (unfold inGridb; lia).
  replace (inGridb m (i + 1) (j + 1)) with ((i <? rows m - 1) && (j <? columns m - 1))
    by (unfold inGridb; lia).
  lia.
Qed.

Lemma mooreMines_bounds (m : Minesweeper) (i j : Z) : 0 <= mooreMines m i j <= 8.
Proof.
  unfold mooreMines. split; [lia|].
  pose proof (List.filter_length_le
    (fun d => inGridb m (i + fst d) (j + snd d) && isMineAt m (i + fst d) (j + snd d))
    moore_offsets) as H.
  cbn [length moore_offsets] in H. lia.
Qed.
(** ** The markers *)

Lemma small_cases (k : Z) :
  0 <= k <= 8 ->
  k = 0 \/ k = 1 \/ k = 2 \/ k = 3 \/ k = 4 \/ k = 5 \/ k = 6 \/ k = 7 \/ k = 8.
Proof. lia. Qed.

Ltac each_count H :=
  apply small_cases in H;
  destruct H as [->|[->|[->|[->|[->|[->|[->|[->| ->]]]]]]]].


Lemma number_at_inj (m : Minesweeper) (k k' : Z) :
  0 <= k <= 8 -> 0 <= k' <= 8 -> number_at m k = number_at m k' -> k = k'.
Proof.
  intros H H'. unfold number_at, types. cbn [numbers].
  destruct (spaces m); each_count H; each_count H';
    vm_compute; intros E; (reflexivity || discriminate E).
Qed.

Lemma number_at_isSpoiler (m : Minesweeper) (k : Z) :
  0 <= k <= 8 -> isSpoiler (number_at m k) = true.
Proof.
  intros H. unfold number_at, types. cbn [numbers].
  destruct (spaces m); each_count H; reflexivity.
Qed.

Lemma number_at_unmasked (m : Minesweeper) (k : Z) :
  0 <= k <= 8 -> isSpoiler (Js.slice (number_at m k) 2 (-2)) = false.
Proof.
  intros H. unfold number_at, types. cbn [numbers].
  destruct (spaces m); each_count H; reflexivity.
Qed.

Lemma mine_isSpoiler (m : Minesweeper) : isSpoiler (mine (types m)) = true.
Proof. unfold types. cbn [mine]. destruct (spaces m); reflexivity. Qed.

(** ** C2 *)

(** C2: [populate], run on a grid of [rows] by [columns] cells, completes,
    keeps the mine marker on the mine cells and puts on every other cell
    the marker of a count: the number of its Moore neighbours inside the
    grid that hold the mine marker.  That count lies between 0 and 8, and
    no other count has the same marker. *)
Theorem populate_moore_counts (m0 : Minesweeper) :
  shape m0 ->
  exists m1,
    populate m0 = Done tt m1 /\
    forall i j, inGrid m0 i j ->
      (isMineAt m0 i j = true ->
         cellAt (matrix m1) i j = Some (mine (types m0))) /\
      (isMineAt m0 i j = false ->
         cellAt (matrix m1) i j = Some (number_at m0 (mooreMines m0 i j)) /\
         0 <= mooreMines m0 i j <= 8 /\
         forall k, 0 <= k <= 8 ->
           cellAt (matrix m1) i j = Some (number_at m0 k) -> k = mooreMines m0 i j).
Proof.
  intros Hs. eexists. split; [apply populate_ok; exact Hs|].
  intros i j Hg. cbn [matrix set_matrix].
  rewrite populatedMatrix_cell by exact Hg. unfold symbolAt.
  split; intros Hm; rewrite Hm; [reflexivity|].
  rewrite counterAt_moore by exact Hg.
  pose proof (mooreMines_bounds m0 i j) as Hb.
  repeat split; try lia.
  intros k Hk E. injection E as E. symmetry.
  now apply (number_at_inj m0).
Qed.

(** ** Writing a cell *)

Lemma writeCell_inGrid (m : Minesweeper) (i j : Z) (v : string) :
  shape m -> inGrid m i j ->
  writeCell i j v m = Done tt (set_matrix (gridSet (matrix m) i j v) m).
Proof.
  intros Hs Hg. destruct (cellAt_Some_inGrid m i j Hs Hg) as [s Hc].
  unfold writeCell, bind, this, gridSet, cellAt in *.
  destruct (Js.index (matrix m) i) as [row|]; [|discriminate].
  rewrite Hc. reflexivity.
Qed.

Lemma gridSet_shape (m : Minesweeper) (i j : Z) (v : string) :
  shape m -> shape (set_matrix (gridSet (matrix m) i j v) m).
Proof.
  intros [Hr Hc]. unfold gridSet.
  destruct (Js.index (matrix m) i) as [row|] eqn:Hrow; [|split; assumption].
  split; cbn [matrix rows columns set_matrix].
  - rewrite length_insert. exact Hr.
  - apply Forall_insert; [exact Hc|]. rewrite length_insert.
    apply index_Some in Hrow as [_ Hrow].
    rewrite Forall_lookup in Hc. exact (Hc _ _ Hrow).
Qed.

Lemma index_insert {A} (l : list A) (i i' : Z) (a old : A) :
  Js.index l i = Some old ->
  Js.index (<[Z.to_nat i := a]> l) i' = if i' =? i then Some a else Js.index l i'.
Proof.
  intros H. pose proof (index_Some_lt _ _ _ H) as Hlt.
  unfold Js.index in *. destruct (Z.ltb_spec i' 0).
  - destruct (Z.eqb_spec i' i); [lia | reflexivity].
  - destruct (Z.eqb_spec i' i) as [->|Hne].
    + apply list_lookup_insert_eq. lia.
    + apply list_lookup_insert_ne. lia.
Qed.

Lemma cellAt_gridSet (g : list (list string)) (i j i' j' : Z) (v old : string) :
  cellAt g i j = Some old ->
  cellAt (gridSet g i j v) i' j'
  = if (i' =? i) && (j' =? j) then Some v else cellAt g i' j'.
Proof.
  unfold cellAt, gridSet. intros H.
  destruct (Js.index g i) as [row|] eqn:Hrow; [|discriminate].
  rewrite (index_insert _ _ _ _ _ Hrow).
  destruct (Z.eqb_spec i' i) as [->|Hne]; cbn [andb]; [|reflexivity].
  rewrite (index_insert _ _ _ _ _ H), Hrow. reflexivity.
Qed.

Lemma count_insert {A} (p : A -> bool) (l : list A) (n : nat) (v old : A) :
  l !! n = Some old ->
  (length (List.filter p (<[n := v]> l)) + (if p old then 1 else 0)
   = length (List.filter p l) + (if p v then 1 else 0))%nat.
Proof.
  revert n. induction l as [|a l IH]; intros [|n] H; try discriminate.
  - injection H as ->. cbn. destruct (p v), (p old); cbn; lia.
  - cbn in H. specialize (IH n H).
    change (<[S n := v]> (a :: l)) with (a :: <[n := v]> l).
    cbn [List.filter]. destruct (p a); cbn [length]; lia.
Qed.

Lemma occ_gridSet (s : string) (g : list (list string)) (i j : Z) (v old : string) :
  cellAt g i j = Some old ->
  (occ s (gridSet g i j v) + (if String.eqb s old then 1 else 0)
   = occ s g + (if String.eqb s v then 1 else 0))%nat.
Proof.
  unfold cellAt, gridSet, occ. intros H.
  destruct (Js.index g i) as [row|] eqn:Hrow; [|discriminate].
  apply index_Some in Hrow as [_ Hrow]. apply index_Some in H as [_ H].
  pose proof (lookup_lt_Some _ _ _ Hrow) as Hlt.
  rewrite insert_take_drop by exact Hlt.
  rewrite <- (take_drop_middle g _ _ Hrow) at 3.
  rewrite !concat_app, !concat_cons, !List.filter_app, !length_app.
  pose proof (count_insert (String.eqb s) row _ v old H). lia.
Qed.
(** ** The random source *)

Lemma floor_mul_range (r : Q) (n : Z) :
  (0 <= r)%Q -> (r < 1)%Q -> 0 < n -> 0 <= Js.floor_mul r n < n.
Proof.
  intros H0 H1 Hn. unfold Js.floor_mul. split.
  - change 0 with (Qfloor 0). apply Qfloor_resp_le.
    apply Qmult_le_0_compat; [exact H0|].
    change 0%Q with (inject_Z 0). rewrite <- Zle_Qle. lia.
  - rewrite Zlt_Qlt. eapply Qle_lt_trans; [apply Qfloor_le|].
    rewrite <- (Qmult_1_l (inject_Z n)) at 2.
    apply Qmult_lt_compat_r; [|exact H1].
    change 0%Q with (inject_Z 0). rewrite <- Zlt_Qlt. lia.
Qed.

Lemma exact_unitValue (N : Z) (r : Q) :
  (0 <= r)%Q -> (r < 1)%Q -> unitValue N r.
Proof. intros H0 H1 n [Hn _]. now apply floor_mul_range. Qed.

Lemma unitValue_le {V} `{RandomValue V} (N N' : Z) (r : V) :
  N' <= N -> unitValue N r -> unitValue N' r.
Proof. intros Hle Hu n Hn. apply Hu. lia. Qed.

Lemma unitValueb_spec {V} `{RandomValue V} (N : nat) (r : V) :
  unitValueb N r = true -> unitValue (Z.of_nat N) r.
Proof.
  unfold unitValueb. rewrite forallb_forall. intros Hb n Hn.
  specialize (Hb n). rewrite zseq_In in Hb. lia.
Qed.

Lemma cycleRng_Forall {V} (P : V -> Prop) (d : V) (l : list V) :
  l <> [] -> List.Forall P l -> forall k, P (cycleRng d l k).
Proof.
  intros Hne Hl k. unfold cycleRng.
  apply (proj1 (List.Forall_forall P l) Hl), nth_In, Nat.mod_upper_bound.
  destruct l; [congruence | discriminate].
Qed.

Lemma unitValue_exact (N : Z) (r : Q) :
  1 <= N -> unitValue N r <-> (0 <= r)%Q /\ (r < 1)%Q.
Proof.
  intros HN. split; [|intros [H0 H1]; now apply exact_unitValue].
  intros Hu. specialize (Hu 1 (conj eq_refl HN)).
  unfold floorMul, exactValue, Js.floor_mul in Hu.
  assert (E : Qfloor (r * inject_Z 1) = 0) by lia. clear Hu.
  assert (Er : (r * inject_Z 1 == r)%Q) by (change (inject_Z 1) with 1%Q; ring).
  rewrite (Qfloor_comp _ _ Er) in E. split.
  - pose proof (Qfloor_le r) as H. now rewrite E in H.
  - pose proof (Qlt_floor r) as H. now rewrite E in H.
Qed.

Lemma listRng_unit (l : list Q) :
  Forall (fun q => (0 <= q)%Q /\ (q < 1)%Q) l ->
  forall n, (0 <= listRng l n)%Q /\ (listRng l n < 1)%Q.
Proof.
  intros H. unfold listRng.
  assert (Hz : (0 <= 0)%Q /\ (0 < 1)%Q) by (split; [apply Qle_refl | reflexivity]).
  induction H as [|q l Hq H IH]; intros [|n]; cbn; auto.
Qed.

(** ** [revealFirst]: choosing and unmasking a cell *)

Lemma filterM_zero (m : Minesweeper) (l : list SafeCell) :
  shape m -> List.Forall (fun c => inGrid m (x c) (y c)) l ->
  filterM (fun c => let* v := readCell (x c) (y c) in
                    ret (strict_eq v (number_at m 0))) l m
  = Done (List.filter (fun c => isZeroAt m (x c) (y c)) l) m.
Proof.
  intros Hs Hl. induction Hl as [|c l Hc Hl IH]; [reflexivity|].
  cbn [filterM List.filter]. unfold bind at 1. unfold bind at 1.
  rewrite readCell_inGrid by assumption. unfold ret at 1.
  unfold bind at 1. rewrite IH. reflexivity.
Qed.

Lemma pickAndUnmask_ok {V} `{RandomValue V} (rng : nat -> V)
    (m : Minesweeper) (l : list SafeCell) :
  shape m -> List.Forall (fun c => inGrid m (x c) (y c)) l -> l <> [] ->
  unitValue (Z.of_nat (length l)) (rng (calls m)) ->
  exists c s,
    In c l /\ cellAt (matrix m) (x c) (y c) = Some s /\
    pickAndUnmask rng l m
    = Done c (set_matrix (gridSet (matrix m) (x c) (y c) (Js.slice s 2 (-2)))
                (set_calls (S (calls m)) m)).
Proof.
  intros Hs Hl Hne Hu.
  assert (Hlen : 0 < Z.of_nat (length l)) by (destruct l; [easy | cbn; lia]).
  pose proof (Hu _ (conj Hlen (Z.le_refl _))) as Hk.
  destruct (index_lt l _ Hk) as [c Hc].
  assert (Hin : In c l).
  { apply index_Some in Hc as [_ Hc]. apply list_elem_of_In.
    eapply list_elem_of_lookup_2. exact Hc. }
  pose proof (proj1 (List.Forall_forall _ _) Hl c Hin) as Hg.
  destruct (cellAt_Some_inGrid m _ _ Hs Hg) as [s Hcell].
  exists c, s. split; [exact Hin|]. split; [exact Hcell|].
  unfold pickAndUnmask. unfold bind at 1. unfold randomIndex.
  rewrite Hc. unfold bind at 1.
  set (m' := set_calls (S (calls m)) m).
  rewrite (readCell_inGrid m') by assumption.
  change (matrix m') with (matrix m). rewrite Hcell.
  unfold bind at 1. rewrite (writeCell_inGrid m') by assumption.
  reflexivity.
Qed.
(** ** The populated instance *)

Lemma b2z_bounds (b : bool) : 0 <= b2z b <= 1.
Proof. destruct b; cbn; lia. Qed.

Lemma counterAt_bounds (m : Minesweeper) (i j : Z) : 0 <= counterAt m i j <= 8.
Proof.
  unfold counterAt. cbv zeta.
  repeat match goal with
         | |- context [b2z ?b] =>
             let H := fresh "H" in
             let z := fresh "z" in
             pose proof (b2z_bounds b) as H; set (z := b2z b) in *; clearbody z
         end.
  lia.
Qed.

Lemma symbolAt_isSpoiler (m : Minesweeper) (i j : Z) :
  isSpoiler (symbolAt m i j) = true.
Proof.
  unfold symbolAt. destruct (isMineAt m i j).
  - apply mine_isSpoiler.
  - apply number_at_isSpoiler, counterAt_bounds.
Qed.

Lemma symbolAt_unmasked (m : Minesweeper) (i j : Z) :
  isMineAt m i j = false ->
  isSpoiler (Js.slice (symbolAt m i j) 2 (-2)) = false.
Proof.
  intros H. unfold symbolAt. rewrite H.
  apply number_at_unmasked, counterAt_bounds.
Qed.

Lemma populated_eq (m0 m1 : Minesweeper) :
  shape m0 -> safeCells m0 = [] -> populate m0 = Done tt m1 ->
  m1 = set_matrix (populatedMatrix m0) (set_safeCells (populatedSafe m0) m0).
Proof.
  intros Hs Hsafe H. rewrite populate_ok in H by exact Hs.
  rewrite Hsafe in H. injection H as <-. reflexivity.
Qed.

Lemma populatedSafe_inGrid (m : Minesweeper) :
  List.Forall (fun c => inGrid m (x c) (y c)) (populatedSafe m).
Proof.
  apply List.Forall_forall. intros c Hc. now apply populatedSafe_In in Hc.
Qed.

Lemma populatedSafe_length (m : Minesweeper) :
  (length (populatedSafe m) <= Z.to_nat (rows m) * Z.to_nat (columns m))%nat.
Proof.
  unfold populatedSafe.
  set (xs := zseq 0 (Z.to_nat (rows m))).
  set (ys := zseq 0 (Z.to_nat (columns m))).
  assert (Hx : length xs = Z.to_nat (rows m)) by apply zseq_length.
  assert (Hy : length ys = Z.to_nat (columns m)) by apply zseq_length.
  rewrite <- Hx, <- Hy. clear Hx Hy. clearbody xs ys.
  induction xs as [|i xs IH]; [cbn; lia|].
  cbn [flat_map length]. rewrite length_app.
  assert (Hrow : (length (safeInRow m i ys) <= length ys)%nat).
  { unfold safeInRow. clear IH.
    induction ys as [|j js IHj]; [cbn; lia|].
    cbn [flat_map length]. rewrite length_app.
    destruct (isMineAt m i j); cbn [length]; lia. }
  lia.
Qed.

(** A non-empty list of cells no longer than the list of the safe cells
    has at most [rows * columns] elements. *)
Lemma safe_cells_bound (m : Minesweeper) (l : list SafeCell) :
  (length l <= length (populatedSafe m))%nat -> l <> [] ->
  Z.of_nat (length l) <= rows m * columns m.
Proof.
  intros Hle Hne. pose proof (populatedSafe_length m) as Hlen.
  assert (Hpos : (0 < length l)%nat) by (destruct l; [congruence | cbn; lia]).
  assert (Hr : 0 < rows m) by (destruct (rows m); cbn in Hlen; lia).
  assert (Hc : 0 < columns m)
    by (destruct (columns m); cbn in Hlen; rewrite ?Nat.mul_0_r in Hlen; lia).
  rewrite <- (Z2Nat.id (rows m)), <- (Z2Nat.id (columns m)) by lia.
  rewrite <- Nat2Z.inj_mul. lia.
Qed.

(** ** C7 *)

(** C7: on a populated field with at least one safe cell, when the first
    cell is to be revealed and either [zeroFirstCell] is off or no safe
    cell holds the zero, [revealFirst] completes and unmasks exactly one
    cell: a cell of the grid that was not a mine, whose masked count
    becomes the unmasked one.  Every other cell keeps its (masked)
    symbol. *)
Theorem revealFirst_single (rng : nat -> Q) (fuel : nat) (m0 m1 : Minesweeper) :
  shape m0 -> safeCells m0 = [] -> populate m0 = Done tt m1 ->
  revealFirstCell m0 = true ->
  (zeroFirstCell m0 = false \/
   forall c, In c (safeCells m1) -> isZeroAt m1 (x c) (y c) = false) ->
  safeCells m1 <> [] ->
  (0 <= rng (calls m1))%Q -> (rng (calls m1) < 1)%Q ->
  exists o m2,
    revealFirst rng fuel m1 = Done o m2 /\
    inGrid m0 (x o) (y o) /\
    isMineAt m0 (x o) (y o) = false /\
    cellAt (matrix m2) (x o) (y o)
    = Some (Js.slice (number_at m0 (mooreMines m0 (x o) (y o))) 2 (-2)) /\
    (forall i j, inGrid m0 i j ->
       (unmaskedAt m2 i j = true <-> i = x o /\ j = y o)) /\
    (forall i j, ~ (i = x o /\ j = y o) ->
       cellAt (matrix m2) i j = cellAt (matrix m1) i j).
Proof.
  intros Hs Hsafe Hpop Hrev Hbranch Hne H0 H1.
  pose proof (populated_eq _ _ Hs Hsafe Hpop) as ->.
  set (m1 := set_matrix _ _) in *.
  assert (Hs1 : shape m1).
  { pose proof Hs as [Hr Hc].
    apply populated_shape; [apply (shape_nonneg _ Hs)|].
    destruct (matrix m0) as [|row g] eqn:E.
    - (* no row: the width is not constrained by the shape *)
      cbn in Hne. unfold populatedSafe in Hne.
      cbn in Hr. rewrite <- Hr in Hne. now cbn in Hne.
    - apply List.Forall_inv in Hc. lia. }
  assert (Hall : List.Forall (fun c => inGrid m1 (x c) (y c)) (safeCells m1))
    by exact (populatedSafe_inGrid m0).
  destruct (pickAndUnmask_ok rng m1 (safeCells m1) Hs1 Hall Hne
              (exact_unitValue _ _ H0 H1))
    as (o & s & Hin & Hcell & Hpick).
  apply populatedSafe_In in Hin as [Hg Hmine].
  assert (Hs_eq : s = number_at m0 (mooreMines m0 (x o) (y o))).
  { cbn [matrix m1 set_matrix] in Hcell.
    rewrite populatedMatrix_cell in Hcell by exact Hg.
    injection Hcell as <-. unfold symbolAt. rewrite Hmine.
    now rewrite counterAt_moore. }
  eexists o, _. split.
  - unfold revealFirst. unfold bind at 1. unfold this at 1.
    change (revealFirstCell m1) with (revealFirstCell m0). rewrite Hrev.
    cbn [negb]. unfold bind at 1. rewrite filterM_zero by assumption.
    assert (Hcond : zeroFirstCell m1 &&
              (0 <? Z.of_nat (length (List.filter
                 (fun c => isZeroAt m1 (x c) (y c)) (safeCells m1)))) = false).
    { destruct Hbranch as [Hz | Hnone].
      - change (zeroFirstCell m1) with (zeroFirstCell m0). now rewrite Hz.
      - apply andb_false_iff. right.
        replace (List.filter _ (safeCells m1)) with (@nil SafeCell); [reflexivity|].
        symmetry. clear -Hnone. induction (safeCells m1) as [|c l IH]; [reflexivity|].
        cbn [List.filter]. rewrite (Hnone c) by (now left).
        apply IH. intros c' Hc'. apply Hnone. now right. }
    rewrite Hcond. unfold bind at 1. rewrite Hpick. destruct o; reflexivity.
  - split; [exact Hg|]. split; [exact Hmine|].
    cbn [matrix set_matrix set_calls].
    split; [|split].
    + rewrite (cellAt_gridSet _ _ _ _ _ _ _ Hcell), !Z.eqb_refl. cbn [andb].
      now rewrite Hs_eq.
    + intros i j Hij. unfold unmaskedAt. cbn [matrix set_matrix set_calls].
      rewrite (cellAt_gridSet _ _ _ _ _ _ _ Hcell).
      destruct (Z.eqb_spec i (x o)) as [->|Hi]; cbn [andb].
      * destruct (Z.eqb_spec j (y o)) as [->|Hj].
        -- rewrite Hs_eq, number_at_unmasked by apply mooreMines_bounds.
           split; auto.
        -- cbn [matrix m1 set_matrix]. rewrite populatedMatrix_cell by exact Hij.
           rewrite symbolAt_isSpoiler. cbn. split; [discriminate | intros [_ ?]; easy].
      * cbn [matrix m1 set_matrix]. rewrite populatedMatrix_cell by exact Hij.
        rewrite symbolAt_isSpoiler. cbn. split; [discriminate | intros [? _]; easy].
    + intros i j Hij. rewrite (cellAt_gridSet _ _ _ _ _ _ _ Hcell).
      destruct (Z.eqb_spec i (x o)), (Z.eqb_spec j (y o)); cbn [andb];
        try reflexivity. exfalso. auto.
Qed.

(** ** Revealing: one cell *)

Lemma number_at_config (m m' : Minesweeper) (k : Z) :
  spaces m' = spaces m -> number_at m' k = number_at m k.
Proof. intros H. unfold number_at, types. now rewrite H. Qed.

Lemma revealState_unmasked (m0 s : Minesweeper) (i j : Z) :
  revealState m0 s -> inGrid m0 i j ->
  (unmaskedAt s i j = false /\ cellAt (matrix s) i j = Some (symbolAt m0 i j)) \/
  (unmaskedAt s i j = true /\ isMineAt m0 i j = false /\
   cellAt (matrix s) i j = Some (Js.slice (symbolAt m0 i j) 2 (-2))).
Proof.
  intros (_ & _ & Hcells) Hg. unfold unmaskedAt.
  destruct (Hcells i j Hg) as [H | [Hm H]]; rewrite H.
  - left. now rewrite symbolAt_isSpoiler.
  - right. now rewrite symbolAt_unmasked.
Qed.

Lemma sameConfig_inGrid (m m' : Minesweeper) (i j : Z) :
  sameConfig m m' -> inGrid m' i j <-> inGrid m i j.
Proof. intros (Hr & Hc & _). unfold inGrid. now rewrite Hr, Hc. Qed.

Lemma revealCell_ok (m0 s : Minesweeper) (zs : list SafeCell) (i j : Z) :
  revealState m0 s -> inGrid m0 i j -> isMineAt m0 i j = false ->
  exists s',
    revealCell zs i j s
    = Done (if unmaskedAt s i j then zs
            else if counterAt m0 i j =? 0 then zs ++ [ {| x := i; y := j |} ] else zs) s' /\
    revealState m0 s' /\ frame s s' /\
    unmaskedAt s' i j = true /\
    (forall i' j', ~ (i' = i /\ j' = j) ->
       cellAt (matrix s') i' j' = cellAt (matrix s) i' j') /\
    (mu m0 s' + (if unmaskedAt s i j then 0
                 else if (counterAt m0 i j =? 0)%Z then 1 else 0) = mu m0 s)%nat.
Proof.
  intros Hrs Hg Hm.
  pose proof Hrs as (Hcfg & Hshape & Hcells).
  assert (Hg' : inGrid s i j) by (now apply (sameConfig_inGrid m0 s)).
  pose proof (counterAt_bounds m0 i j) as Hb.
  assert (Hsym : symbolAt m0 i j = number_at m0 (counterAt m0 i j))
    by (unfold symbolAt; now rewrite Hm).
  assert (Hn0 : number_at s 0 = number_at m0 0)
    by (apply number_at_config; apply Hcfg).
  unfold revealCell. unfold bind at 1. unfold this at 1.
  unfold bind at 1. rewrite readCell_inGrid by assumption.
  destruct (revealState_unmasked m0 s i j Hrs Hg) as [[Hu Hc] | (Hu & _ & Hc)];
    rewrite Hu, Hc.
  - fold (isSpoiler (symbolAt m0 i j)). rewrite symbolAt_isSpoiler.
    unfold bind at 1. rewrite writeCell_inGrid by assumption. unfold ret.
    set (s' := set_matrix _ s).
    assert (Hcell' : forall i' j',
               cellAt (matrix s') i' j'
               = if (i' =? i) && (j' =? j)
                 then Some (Js.slice (symbolAt m0 i j) 2 (-2))
                 else cellAt (matrix s) i' j').
    { intros i' j'. apply (cellAt_gridSet _ _ _ _ _ _ _ Hc). }
    exists s'. split; [|split; [|split; [|split; [|split]]]].
    + rewrite Hn0, Hsym.
      destruct (Z.eqb_spec (counterAt m0 i j) 0) as [E|E].
      * rewrite E, String.eqb_refl. reflexivity.
      * replace (String.eqb _ _) with false; [reflexivity|].
        symmetry. apply String.eqb_neq. intros E'. apply E.
        now apply (number_at_inj m0).
    + split; [exact Hcfg|]. split; [apply gridSet_shape; exact Hshape|].
      intros i' j' Hg2. rewrite Hcell'.
      destruct (Z.eqb_spec i' i) as [->|]; cbn [andb]; [|now apply Hcells].
      destruct (Z.eqb_spec j' j) as [->|]; [|now apply Hcells].
      right. split; [exact Hm | reflexivity].
    + split; reflexivity.
    + unfold unmaskedAt. rewrite Hcell', !Z.eqb_refl. cbn [andb].
      now rewrite symbolAt_unmasked.
    + intros i' j' Hne. rewrite Hcell'.
      destruct (Z.eqb_spec i' i), (Z.eqb_spec j' j); cbn [andb];
        try reflexivity. exfalso; auto.
    + unfold mu. cbn [matrix s' set_matrix].
      pose proof (occ_gridSet (number_at m0 0) (matrix s) i j
                    (Js.slice (symbolAt m0 i j) 2 (-2)) _ Hc) as Hocc.
      replace (String.eqb (number_at m0 0) (Js.slice (symbolAt m0 i j) 2 (-2)))
        with false in Hocc.
      2:{ symmetry. apply String.eqb_neq. intros E.
          pose proof (symbolAt_unmasked m0 i j Hm) as Hu'.
          rewrite <- E in Hu'. rewrite number_at_isSpoiler in Hu' by lia.
          discriminate. }
      rewrite Hsym in Hocc at 2.
      destruct (Z.eqb_spec (counterAt m0 i j) 0) as [E|E].
      * rewrite E, String.eqb_refl in Hocc. lia.
      * replace (String.eqb _ _) with false in Hocc; [lia|].
        symmetry. apply String.eqb_neq. intros E'. apply E. symmetry.
        now apply (number_at_inj m0).
  - fold (isSpoiler (Js.slice (symbolAt m0 i j) 2 (-2))).
    rewrite symbolAt_unmasked by exact Hm.
    exists s. unfold ret.
    split; [reflexivity|]. split; [exact Hrs|]. split; [split; reflexivity|].
    split; [exact Hu|]. split; [reflexivity | lia].
Qed.
(** ** Loops *)

Lemma foldM_app {A S} (body : S -> A -> M S) (l1 l2 : list A) (acc : S) (m : Minesweeper) :
  foldM body (l1 ++ l2) acc m = bind (foldM body l1 acc) (foldM body l2) m.
Proof.
  revert acc m. induction l1 as [|a l1 IH]; intros acc m; [reflexivity|].
  cbn [foldM app]. unfold bind.
  destruct (body acc a m) as [acc' m'| |]; [|reflexivity|reflexivity].
  rewrite IH. reflexivity.
Qed.

Lemma foldM_map {A B S} (body : S -> B -> M S) (f : A -> B) (l : list A)
    (acc : S) (m : Minesweeper) :
  foldM body (map f l) acc m = foldM (fun s a => body s (f a)) l acc m.
Proof.
  revert acc m. induction l as [|a l IH]; intros acc m; [reflexivity|].
  cbn [foldM map]. unfold bind.
  destruct (body acc (f a) m); [apply IH | reflexivity | reflexivity].
Qed.

Lemma foldM_nested {S} (body : S -> Z -> Z -> M S) (xs ys : list Z)
    (acc : S) (m : Minesweeper) :
  foldM (fun s i => foldM (fun s j => body s i j) ys s) xs acc m
  = foldM (fun s c => body s (x c) (y c))
          (flat_map (fun i => map (fun j => {| x := i; y := j |}) ys) xs) acc m.
Proof.
  revert acc m. induction xs as [|i xs IH]; intros acc m; [reflexivity|].
  cbn [foldM flat_map]. rewrite foldM_app. unfold bind.
  rewrite foldM_map. cbn [x y].
  destruct (foldM _ ys acc m); [apply IH | reflexivity | reflexivity].
Qed.

Lemma foldM_inv_from {A S} (body : S -> A -> M S)
    (I : list A -> S -> Minesweeper -> Prop) (rest : list A) :
  (forall done a acc m, I done acc m -> In a rest ->
     exists acc' m', body acc a m = Done acc' m' /\ I (done ++ [a]) acc' m') ->
  forall done acc m, I done acc m ->
  exists acc' m', foldM body rest acc m = Done acc' m' /\ I (done ++ rest) acc' m'.
Proof.
  induction rest as [|a rest IH]; intros Hstep done acc m HI.
  - exists acc, m. rewrite app_nil_r. split; [reflexivity | exact HI].
  - destruct (Hstep done a acc m HI) as (acc1 & m1 & Hb & HI1); [now left|].
    destruct (IH (fun d a' acc0 m0 H Hin => Hstep d a' acc0 m0 H (or_intror Hin))
                 (done ++ [a]) acc1 m1 HI1) as (acc2 & m2 & Hf & HI2).
    exists acc2, m2. cbn [foldM]. unfold bind. rewrite Hb.
    split; [exact Hf|]. now rewrite <- app_assoc in HI2.
Qed.

Lemma foldM_inv {A S} (body : S -> A -> M S)
    (I : list A -> S -> Minesweeper -> Prop) (l : list A) (acc : S) (m : Minesweeper) :
  (forall done a acc m, I done acc m -> In a l ->
     exists acc' m', body acc a m = Done acc' m' /\ I (done ++ [a]) acc' m') ->
  I [] acc m ->
  exists acc' m', foldM body l acc m = Done acc' m' /\ I l acc' m'.
Proof. intros Hstep HI. exact (foldM_inv_from body I l Hstep [] acc m HI). Qed.

(** ** Around a zero *)

Lemma b2z_sum_zero (a b c d e f g h : bool) :
  0 + b2z a + b2z b + b2z c + b2z d + b2z e + b2z f + b2z g + b2z h = 0 ->
  a = false /\ b = false /\ c = false /\ d = false /\
  e = false /\ f = false /\ g = false /\ h = false.
Proof.
  destruct a, b, c, d, e, f, g, h; cbn; intros H;
    first [discriminate H | repeat split; reflexivity].
Qed.

Lemma cheb_cases (z c : SafeCell) :
  cheb z c <= 1 ->
  (x c = x z - 1 \/ x c = x z \/ x c = x z + 1) /\
  (y c = y z - 1 \/ y c = y z \/ y c = y z + 1).
Proof. unfold cheb. lia. Qed.

Lemma zeroCell_box_safe (m0 : Minesweeper) (z c : SafeCell) :
  zeroCell m0 z -> box m0 z c -> isMineAt m0 (x c) (y c) = false.
Proof.
  intros (Hgz & Hmz & Hcount) [[Hi Hj] Hd].
  destruct Hgz as [Hiz Hjz].
  apply b2z_sum_zero in Hcount as (H1 & H2 & H3 & H4 & H5 & H6 & H7 & H8).
  apply cheb_cases in Hd as [Hx Hy].
  destruct Hx as [Hx|[Hx|Hx]], Hy as [Hy|[Hy|Hy]]; rewrite Hx, Hy in *;
    try exact Hmz;
    match goal with
    | H : _ && isMineAt m0 ?a ?b = false |- isMineAt m0 ?a ?b = false =>
        apply andb_false_iff in H as [H|H]; [exfalso; lia | exact H]
    end.
Qed.

Lemma boxCells_In (m0 s : Minesweeper) (z c : SafeCell) :
  sameConfig m0 s -> In c (boxCells s z) <-> box m0 z c.
Proof.
  intros (Hr & Hc & _). unfold boxCells, box, range, inGrid, cheb.
  rewrite Hr, Hc. rewrite in_flat_map. split.
  - intros (i & Hi & Hin). apply in_map_iff in Hin as (j & <- & Hj).
    apply zseq_In in Hi, Hj. cbn [x y]. lia.
  - intros [[Hi Hj] Hd]. exists (x c). split; [apply zseq_In; lia|].
    apply in_map_iff. exists (y c). split; [now destruct c | apply zseq_In; lia].
Qed.

(** ** Revealing: the cells around a zero *)

Lemma cell_eq (c c' : SafeCell) : x c = x c' -> y c = y c' -> c = c'.
Proof. destruct c, c'. cbn. now intros -> ->. Qed.

Lemma frame_refl (s : Minesweeper) : frame s s.
Proof. split; reflexivity. Qed.

Lemma frame_trans (s t u : Minesweeper) : frame s t -> frame t u -> frame s u.
Proof. intros [H1 H2] [H3 H4]. split; congruence. Qed.

Lemma boxInv_step (m0 s : Minesweeper) (z : SafeCell)
    (done zs : list SafeCell) (a : SafeCell) (t : Minesweeper) :
  zeroCell m0 z -> box m0 z a -> boxInv m0 s done zs t ->
  exists zs' t',
    revealCell zs (x a) (y a) t = Done zs' t' /\ boxInv m0 s (done ++ [a]) zs' t'.
Proof.
  intros Hz Ha (Hrs & Hfr & U1 & U2 & U3 & Hzs & Hmu).
  pose proof (zeroCell_box_safe m0 z a Hz Ha) as Hsafe.
  destruct Ha as [Hg _].
  destruct (revealCell_ok m0 t zs (x a) (y a) Hrs Hg Hsafe)
    as (t' & Hrun & Hrs' & Hfr' & Hua & Hother & Hmu').
  replace {| x := x a; y := y a |} with a in Hrun by now destruct a.
  eexists _, t'. split; [exact Hrun|].
  assert (Hmono : forall c, unmaskedAt t (x c) (y c) = true ->
                            unmaskedAt t' (x c) (y c) = true).
  { intros c Hc. destruct (Z.eq_dec (x c) (x a)) as [Ex|Ex].
    - destruct (Z.eq_dec (y c) (y a)) as [Ey|Ey].
      + now rewrite Ex, Ey.
      + unfold unmaskedAt in *. rewrite Hother; [exact Hc | intros [_ ?]; auto].
    - unfold unmaskedAt in *. rewrite Hother; [exact Hc | intros [? _]; auto]. }
  split; [exact Hrs'|]. split; [eapply frame_trans; eassumption|].
  split; [|split; [|split; [|split]]].
  - intros c Hc. apply in_app_iff in Hc as [Hc|[<-|[]]]; [|exact Hua].
    apply Hmono, U1, Hc.
  - intros c Hc. apply Hmono, U2, Hc.
  - intros c Hc. destruct (Z.eq_dec (x c) (x a)) as [Ex|Ex].
    + destruct (Z.eq_dec (y c) (y a)) as [Ey|Ey].
      * right. apply in_app_iff. right. left. symmetry. now apply cell_eq.
      * unfold unmaskedAt in Hc. rewrite Hother in Hc by (intros [_ ?]; auto).
        destruct (U3 c Hc); [now left | right; apply in_app_iff; now left].
    + unfold unmaskedAt in Hc. rewrite Hother in Hc by (intros [? _]; auto).
      destruct (U3 c Hc); [now left | right; apply in_app_iff; now left].
  - intros c. rewrite in_app_iff. cbn [In].
    destruct (unmaskedAt t (x a) (y a)) eqn:Hta.
    + rewrite Hzs. split.
      * intros (H1 & H2 & H3). auto.
      * intros ([H1|[<-|[]]] & H2 & H3); [auto|].
        destruct (U3 a Hta) as [H|H]; [congruence | auto].
    + assert (Hsa : unmaskedAt s (x a) (y a) = false).
      { destruct (unmaskedAt s (x a) (y a)) eqn:E; [|reflexivity].
        apply U2 in E. congruence. }
      destruct (Z.eqb_spec (counterAt m0 (x a) (y a)) 0) as [E|E].
      * rewrite in_app_iff, Hzs. cbn [In]. split.
        -- intros [(H1 & H2 & H3)|[<-|[]]]; auto.
        -- intros ([H1|[<-|[]]] & H2 & H3); auto.
      * rewrite Hzs. split.
        -- intros (H1 & H2 & H3). auto.
        -- intros ([H1|[<-|[]]] & H2 & H3); [auto | contradiction].
  - destruct (unmaskedAt t (x a) (y a)); [lia|].
    destruct (counterAt m0 (x a) (y a) =? 0); [|lia].
    rewrite length_app. cbn [length]. lia.
Qed.

Lemma revealBox_ok (m0 s : Minesweeper) (z : SafeCell) :
  revealState m0 s -> zeroCell m0 z ->
  exists zs s1,
    foldM (fun zs c => revealCell zs (x c) (y c)) (boxCells s z) [] s = Done zs s1 /\
    revealState m0 s1 /\ frame s s1 /\
    (forall c, unmaskedAt s1 (x c) (y c) = true <->
               unmaskedAt s (x c) (y c) = true \/ box m0 z c) /\
    (forall c, In c zs <->
       box m0 z c /\ unmaskedAt s (x c) (y c) = false /\
       counterAt m0 (x c) (y c) = 0) /\
    (mu m0 s1 + length zs <= mu m0 s)%nat.
Proof.
  intros Hrs Hz. pose proof Hrs as (Hcfg & _).
  destruct (foldM_inv (fun zs c => revealCell zs (x c) (y c))
              (boxInv m0 s) (boxCells s z) [] s) as (zs & s1 & Hrun & Hinv).
  - intros done a acc t HI Hin. apply (boxInv_step m0 s z); [exact Hz| |exact HI].
    now apply (boxCells_In m0 s z a Hcfg).
  - split; [exact Hrs|]. split; [apply frame_refl|].
    split; [intros c []|]. split; [auto|]. split; [auto|].
    split; [|cbn; lia]. intros c. cbn. tauto.
  - destruct Hinv as (Hrs1 & Hfr & U1 & U2 & U3 & Hzs & Hmu).
    exists zs, s1. split; [exact Hrun|]. split; [exact Hrs1|]. split; [exact Hfr|].
    split; [|split; [|exact Hmu]].
    + intros c. split.
      * intros H. destruct (U3 c H) as [H'|H']; [now left|].
        right. now apply (boxCells_In m0 s z c Hcfg).
      * intros [H|H]; [now apply U2|]. apply U1.
        now apply (boxCells_In m0 s z c Hcfg).
    + intros c. rewrite Hzs. rewrite (boxCells_In m0 s z c Hcfg). tauto.
Qed.

(** ** Revealing: the recursion *)

Lemma zeroPath_trans (m : Minesweeper) (a b c : SafeCell) :
  zeroPath m a b -> zeroPath m b c -> zeroPath m a c.
Proof.
  intros Hab Hbc. induction Hbc as [|c c' Hbc IH Hadj Hz]; [exact Hab|].
  eapply zp_step; eassumption.
Qed.

Lemma zeroPath_box (m0 m1 : Minesweeper) (z z0 : SafeCell) :
  (forall c, zeroCell m0 c -> isZeroAt m1 (x c) (y c) = true) ->
  zeroCell m0 z0 -> cheb z z0 <= 1 -> zeroPath m1 z z0.
Proof.
  intros Hz1 Hz0 Hd.
  destruct (Z.eq_dec (cheb z z0) 1) as [E|E].
  - eapply zp_step; [apply zp_origin | exact E | now apply Hz1].
  - replace z0 with z; [apply zp_origin|].
    unfold cheb in *. apply cell_eq; lia.
Qed.

Lemma closedAt_mono (m0 s s' : Minesweeper) (z : SafeCell) :
  (forall c, unmaskedAt s (x c) (y c) = true -> unmaskedAt s' (x c) (y c) = true) ->
  closedAt m0 s z -> closedAt m0 s' z.
Proof. intros Hmono Hc c Hb. apply Hmono, Hc, Hb. Qed.

Section Recursion.

Variables m0 m1 : Minesweeper.
Hypothesis zero_m1 : forall c, zeroCell m0 c -> isZeroAt m1 (x c) (y c) = true.

Lemma revealSurroundings_ok (fuel : nat) :
  forall s z,
    revealState m0 s -> zeroCell m0 z -> (mu m0 s < fuel)%nat ->
    exists s', revealSurroundings fuel z true s = Done tt s' /\ rsPost m0 m1 s z s'.
Proof.
  induction fuel as [|fuel IH]; intros s z Hrs Hz Hfuel; [lia|].
  cbn [revealSurroundings]. unfold bind at 1. unfold this at 1.
  unfold bind at 1. rewrite foldM_nested. fold (boxCells s z).
  destruct (revealBox_ok m0 s z Hrs Hz) as (zs & s1 & Hrun & Hrs1 & Hfr1 & Hu1 & Hzs & Hmu1).
  rewrite Hrun.
  assert (Hzs_zero : forall a, In a zs -> zeroCell m0 a /\ cheb z a <= 1).
  { intros a Ha. apply Hzs in Ha as (Hb & _ & Hc).
    split; [|apply Hb]. split; [apply Hb|]. split; [|exact Hc].
    eapply zeroCell_box_safe; eassumption. }
  destruct (foldM_inv (fun (_ : unit) z' => revealSurroundings fuel z' true)
              (fun done _ t => childInv m0 m1 s1 done t) zs tt s1)
    as ([] & s' & Hrun' & Hinv).
  - intros done a [] t (Hrt & Hft & Hmono & Hsound & Hclosed & Hzc & Hmut) Hin.
    destruct (Hzs_zero a Hin) as [Hza _].
    assert (Hlen : (1 <= length zs)%nat) by (destruct zs; [destruct Hin | cbn; lia]).
    destruct (IH t a Hrt Hza) as (t' & Hcall & Hpost); [lia|].
    destruct Hpost as (Hrt' & Hft' & Hmono' & Hsound' & Hclosed' & Hzc' & Hmut').
    exists tt, t'. split; [exact Hcall|].
    split; [exact Hrt'|]. split; [eapply frame_trans; eassumption|].
    split; [auto|]. split; [|split; [|split; [|lia]]].
    + intros c Hc. destruct (Hsound' c Hc) as [H|(z' & Hp & Hb)].
      * destruct (Hsound c H) as [H'|(z0 & z' & Hin0 & Hp & Hb)]; [now left|].
        right. exists z0, z'. split; [apply in_app_iff; now left | auto].
      * right. exists a, z'. split; [apply in_app_iff; right; now left | auto].
    + intros z0 Hz0. apply in_app_iff in Hz0 as [Hz0|[<-|[]]]; [|exact Hclosed'].
      eapply closedAt_mono; [exact Hmono' | now apply Hclosed].
    + intros z' Hz' Hu'. destruct (Hzc' z' Hz' Hu') as [H|H]; [|now right].
      destruct (Hzc z' Hz' H) as [H'|H']; [now left|].
      right. eapply closedAt_mono; [exact Hmono' | exact H'].
  - split; [exact Hrs1|]. split; [apply frame_refl|]. split; [auto|].
    split; [auto|]. split; [intros z0 []|]. split; [auto | lia].
  - destruct Hinv as (Hrs' & Hfr' & Hmono & Hsound & Hclosed & Hzc & Hmu').
    exists s'. split; [exact Hrun'|].
    split; [exact Hrs'|]. split; [eapply frame_trans; eassumption|].
    split; [|split; [|split; [|split; [|lia]]]].
    + intros c Hc. apply Hmono, Hu1. now left.
    + intros c Hc. destruct (Hsound c Hc) as [H|(z0 & z' & Hin0 & Hp & Hb)].
      * apply Hu1 in H as [H|H]; [now left|].
        right. exists z. split; [apply zp_origin | exact H].
      * right. exists z'. split; [|exact Hb].
        destruct (Hzs_zero z0 Hin0) as [Hz0 Hd].
        eapply zeroPath_trans; [|exact Hp].
        now apply (zeroPath_box m0 m1).
    + intros c Hb. apply Hmono, Hu1. now right.
    + intros z' Hz' Hu'. destruct (Hzc z' Hz' Hu') as [H|H]; [|now right].
      apply Hu1 in H as [H|H]; [now left|].
      destruct (unmaskedAt s (x z') (y z')) eqn:E; [now left|].
      right. apply Hclosed. apply Hzs. split; [exact H|]. split; [exact E|].
      apply Hz'.
Qed.

End Recursion.

(** ** The populated instance, continued *)

Lemma length_concat_rows {A} (g : list (list A)) (w : nat) :
  List.Forall (fun row => length row = w) g ->
  length (concat g) = (length g * w)%nat.
Proof.
  induction 1 as [|row g Hrow Hall IH]; [reflexivity|].
  cbn [concat length]. rewrite length_app, IH, Hrow. lia.
Qed.

Lemma occ_le_cells (v : string) (m : Minesweeper) :
  shape m -> Z.of_nat (occ v (matrix m)) <= rows m * columns m.
Proof.
  intros [Hr Hc]. unfold occ.
  destruct (matrix m) as [|row g] eqn:E.
  - cbn in *. lia.
  - rewrite <- E in *.
    pose proof (List.filter_length_le (String.eqb v) (concat (matrix m))) as Hle.
    rewrite (length_concat_rows (matrix m) (Z.to_nat (columns m))) in Hle.
    + assert (0 <= columns m).
      { rewrite E in Hc. apply List.Forall_inv in Hc. lia. }
      nia.
    + eapply List.Forall_impl; [|exact Hc]. cbn. intros; lia.
Qed.

Lemma populated_shape_safe (m0 : Minesweeper) :
  shape m0 -> populatedSafe m0 <> [] -> shape (populated m0).
Proof.
  intros Hs Hne. pose proof Hs as [Hr Hc]. unfold populated.
  apply populated_shape; [apply (shape_nonneg _ Hs)|].
  destruct (matrix m0) as [|row g] eqn:E.
  - unfold populatedSafe in Hne. cbn in Hr. rewrite <- Hr in Hne. now cbn in Hne.
  - apply List.Forall_inv in Hc. lia.
Qed.

Lemma populated_cell (m0 : Minesweeper) (i j : Z) :
  inGrid m0 i j -> cellAt (matrix (populated m0)) i j = Some (symbolAt m0 i j).
Proof. apply populatedMatrix_cell. Qed.

Lemma populated_zero (m0 : Minesweeper) (i j : Z) :
  inGrid m0 i j -> isMineAt m0 i j = false ->
  isZeroAt (populated m0) i j = true <-> counterAt m0 i j = 0.
Proof.
  intros Hg Hm. unfold isZeroAt. rewrite populated_cell by exact Hg.
  change (number_at (populated m0) 0) with (number_at m0 0).
  unfold symbolAt. rewrite Hm. cbn [strict_eq]. rewrite String.eqb_eq.
  pose proof (counterAt_bounds m0 i j). split.
  - intros E. apply (number_at_inj m0); [lia | lia | exact E].
  - now intros ->.
Qed.

Lemma populated_zero_inGrid (m0 : Minesweeper) (i j : Z) :
  shape (populated m0) -> isZeroAt (populated m0) i j = true -> inGrid m0 i j.
Proof.
  intros Hs H. unfold isZeroAt in H.
  destruct (cellAt (matrix (populated m0)) i j) as [s|] eqn:E; [|discriminate].
  assert (Hdec : inGridb m0 i j = true \/ inGridb m0 i j = false)
    by (destruct (inGridb m0 i j); auto).
  destruct Hdec as [Hin|Hout]; [now apply inGridb_spec|].
  rewrite (cellAt_None_outside (populated m0)) in E; [discriminate | exact Hs |].
  intros Hg. change (inGrid m0 i j) in Hg. apply inGridb_spec in Hg. congruence.
Qed.

Lemma populated_revealState (m0 : Minesweeper) :
  shape (populated m0) -> revealState m0 (populated m0).
Proof.
  intros Hs. split; [repeat split|]. split; [exact Hs|].
  intros i j Hg. left. now apply populated_cell.
Qed.

Lemma populated_masked (m0 : Minesweeper) (i j : Z) :
  unmaskedAt (populated m0) i j = false.
Proof.
  unfold unmaskedAt, cellAt. cbn [matrix populated set_matrix].
  destruct (Js.index (populatedMatrix m0) i) as [row|] eqn:Hrow; [|reflexivity].
  destruct (Js.index row j) as [s|] eqn:Hs; [|reflexivity].
  apply index_Some in Hrow as [_ Hrow]. apply index_Some in Hs as [_ Hs].
  unfold populatedMatrix in Hrow.
  apply list_lookup_fmap_Some in Hrow as (i' & -> & _).
  apply list_lookup_fmap_Some in Hs as (j' & -> & _).
  now rewrite symbolAt_isSpoiler.
Qed.
Lemma firstUnmask_state (m0 : Minesweeper) (o : SafeCell) (n : nat) :
  shape (populated m0) -> inGrid m0 (x o) (y o) -> isMineAt m0 (x o) (y o) = false ->
  let s0 := set_matrix (gridSet (matrix (populated m0)) (x o) (y o)
                          (Js.slice (symbolAt m0 (x o) (y o)) 2 (-2)))
              (set_calls n (populated m0)) in
  revealState m0 s0 /\
  (forall c, unmaskedAt s0 (x c) (y c) = true <-> c = o) /\
  (mu m0 s0 + (if (counterAt m0 (x o) (y o) =? 0)%Z then 1 else 0)
   = mu m0 (populated m0))%nat /\
  (forall i j, ~ (i = x o /\ j = y o) ->
     cellAt (matrix s0) i j = cellAt (matrix (populated m0)) i j) /\
  cellAt (matrix s0) (x o) (y o) = Some (Js.slice (symbolAt m0 (x o) (y o)) 2 (-2)).
Proof.
  intros Hs Hg Hm s0.
  pose proof (populated_cell m0 _ _ Hg) as Hcell.
  assert (Hcell' : forall i j,
             cellAt (matrix s0) i j
             = if (i =? x o) && (j =? y o)
               then Some (Js.slice (symbolAt m0 (x o) (y o)) 2 (-2))
               else cellAt (matrix (populated m0)) i j).
  { intros i j. apply (cellAt_gridSet _ _ _ _ _ _ _ Hcell). }
  split; [|split; [|split; [|split]]].
  - split; [repeat split|]. split.
    + apply (gridSet_shape (set_calls n (populated m0))). exact Hs.
    + intros i j Hij. rewrite Hcell'.
      destruct (Z.eqb_spec i (x o)) as [->|]; cbn [andb];
        [|left; now apply populated_cell].
      destruct (Z.eqb_spec j (y o)) as [->|]; [|left; now apply populated_cell].
      right. split; [exact Hm | reflexivity].
  - intros c. unfold unmaskedAt. rewrite Hcell'.
    destruct (Z.eqb_spec (x c) (x o)) as [Ex|Ex]; cbn [andb].
    + destruct (Z.eqb_spec (y c) (y o)) as [Ey|Ey].
      * rewrite symbolAt_unmasked by exact Hm. split; [intros _; now apply cell_eq | auto].
      * fold (unmaskedAt (populated m0) (x c) (y c)). rewrite populated_masked.
        split; [discriminate | intros ->; contradiction].
    + fold (unmaskedAt (populated m0) (x c) (y c)). rewrite populated_masked.
      split; [discriminate | intros ->; contradiction].
  - unfold mu. cbn [matrix s0 set_matrix].
    pose proof (occ_gridSet (number_at m0 0) (matrix (populated m0)) (x o) (y o)
                  (Js.slice (symbolAt m0 (x o) (y o)) 2 (-2)) _ Hcell) as Hocc.
    replace (String.eqb (number_at m0 0) (Js.slice (symbolAt m0 (x o) (y o)) 2 (-2)))
      with false in Hocc.
    2:{ symmetry. apply String.eqb_neq. intros E.
        pose proof (symbolAt_unmasked m0 _ _ Hm) as Hu'.
        rewrite <- E in Hu'. rewrite number_at_isSpoiler in Hu' by lia.
        discriminate. }
    assert (Hsym : symbolAt m0 (x o) (y o) = number_at m0 (counterAt m0 (x o) (y o)))
      by (unfold symbolAt; now rewrite Hm).
    rewrite Hsym in Hocc |- *.
    pose proof (counterAt_bounds m0 (x o) (y o)) as Hb.
    destruct (Z.eqb_spec (counterAt m0 (x o) (y o)) 0) as [E|E].
    + rewrite E in Hocc |- *. rewrite String.eqb_refl in Hocc.
      cbn [matrix populated set_matrix] in *. lia.
    + replace (String.eqb _ _) with false in Hocc;
        [cbn [matrix populated set_matrix] in *; lia|].
      symmetry. apply String.eqb_neq. intros E'. apply E. symmetry.
      now apply (number_at_inj m0).
  - intros i j Hne. rewrite Hcell'.
    destruct (Z.eqb_spec i (x o)), (Z.eqb_spec j (y o)); cbn [andb];
      try reflexivity. exfalso; auto.
  - rewrite Hcell', !Z.eqb_refl. reflexivity.
Qed.

(** ** [revealFirst] when the first cell is not to be revealed *)

(** C8: with [revealFirstCell] off, [revealFirst] returns the sentinel
    (-1, -1) and leaves the instance, hence every cell of the matrix, as it
    was; on the field [populate] has just filled (its cells are the mine
    marker or the masked counts) every cell is left masked. *)
Theorem revealFirst_disabled (rng : nat -> Q) (fuel : nat) (m : Minesweeper) :
  revealFirstCell m = false ->
  revealFirst rng fuel m = Done {| x := -1; y := -1 |} m /\
  forall m0 i j, m = populated m0 -> unmaskedAt m i j = false.
Proof.
  intros H. split.
  - unfold revealFirst, bind, this, ret. rewrite H. reflexivity.
  - intros m0 i j ->. apply populated_masked.
Qed.

Lemma revealFirst_disabled_witness :
  let m := populated (set_matrix (matrix cornerField)
                        (constructor (Some (fieldOpts 3 3 1 false)))) in
  revealFirst (constRng 0) 0 m = Done {| x := -1; y := -1 |} m /\
  unmaskedAt m 1 1 = false.
Proof.
  cbv zeta. set (m := populated _).
  destruct (revealFirst_disabled (constRng 0) 0 m eq_refl) as [H1 H2].
  split; [exact H1 | exact (H2 _ 1 1 eq_refl)].
Defined.

(** ** [revealFirst] on the populated instance *)

Lemma filter_nil_iff {A} (p : A -> bool) (l : list A) :
  List.filter p l = [] <-> forall a, In a l -> p a = false.
Proof.
  induction l as [|a l IH]; cbn [List.filter]; [split; [intros _ a [] | auto]|].
  destruct (p a) eqn:E.
  - split; [discriminate|]. intros H. specialize (H a (or_introl eq_refl)). congruence.
  - rewrite IH. split.
    + intros H b [<-|Hb]; auto.
    + intros H b Hb. apply H. now right.
Qed.

Lemma zeroCell_populated (m0 : Minesweeper) (c : SafeCell) :
  zeroCell m0 c -> isZeroAt (populated m0) (x c) (y c) = true.
Proof. intros (Hg & Hm & Hc). now apply populated_zero. Qed.

Lemma revealFirst_zero {V} `{RandomValue V} (rng : nat -> V) (fuel : nat)
    (m0 : Minesweeper) :
  shape m0 -> revealFirstCell m0 = true -> zeroFirstCell m0 = true ->
  (exists c, In c (populatedSafe m0) /\ isZeroAt (populated m0) (x c) (y c) = true) ->
  unitValue (rows m0 * columns m0) (rng (calls m0)) ->
  rows m0 * columns m0 <= Z.of_nat fuel ->
  exists o m2,
    revealFirst rng fuel (populated m0) = Done o m2 /\
    In o (populatedSafe m0) /\ zeroCell m0 o /\
    rsPost m0 (populated m0) (firstUnmasked m0 o) o m2.
Proof.
  intros Hs Hrev Hzf (c0 & Hc0 & Hz0) Hu Hfuel.
  set (m1 := populated m0) in *.
  assert (Hs1 : shape m1).
  { apply populated_shape_safe; [exact Hs|]. intros E. rewrite E in Hc0. destruct Hc0. }
  set (zeroCells := List.filter (fun c => isZeroAt m1 (x c) (y c)) (populatedSafe m0)).
  assert (Hzne : zeroCells <> []).
  { intros E. apply filter_nil_iff with (a := c0) in E; [congruence | exact Hc0]. }
  assert (Hall : List.Forall (fun c => inGrid m1 (x c) (y c)) zeroCells).
  { apply List.Forall_forall. intros c Hc. apply filter_In in Hc as [Hc _].
    now apply populatedSafe_In in Hc. }
  assert (Hzlen : Z.of_nat (length zeroCells) <= rows m0 * columns m0)
    by (apply safe_cells_bound; [apply List.filter_length_le | exact Hzne]).
  destruct (pickAndUnmask_ok rng m1 zeroCells Hs1 Hall Hzne
              (unitValue_le _ _ _ Hzlen Hu))
    as (o & s & Hin & Hcell & Hpick).
  apply filter_In in Hin as [Hin Hzo].
  pose proof Hin as Hin'. apply populatedSafe_In in Hin' as [Hg Hm].
  assert (Hzc : zeroCell m0 o).
  { split; [exact Hg|]. split; [exact Hm|]. now apply populated_zero. }
  assert (Hs_eq : s = symbolAt m0 (x o) (y o)).
  { unfold m1 in Hcell. rewrite populated_cell in Hcell by exact Hg. congruence. }
  rewrite Hs_eq in Hpick. fold (firstUnmasked m0 o) in Hpick.
  destruct (firstUnmask_state m0 o (S (calls m0)) Hs1 Hg Hm)
    as (Hrs0 & Hu0 & Hmu0 & _).
  fold (firstUnmasked m0 o) in Hrs0, Hu0, Hmu0.
  destruct (revealSurroundings_ok m0 m1 (zeroCell_populated m0) fuel
              (firstUnmasked m0 o) o Hrs0 Hzc) as (m2 & Hrun & Hpost).
  { destruct Hzc as (_ & _ & Hcount). rewrite Hcount, Z.eqb_refl in Hmu0.
    pose proof (occ_le_cells (number_at m0 0) m1 Hs1) as Hle.
    unfold mu in *. change (rows m1) with (rows m0) in Hle.
    change (columns m1) with (columns m0) in Hle. fold m1 in Hmu0. lia. }
  exists o, m2. split; [|auto].
  unfold revealFirst. unfold bind at 1. unfold this at 1.
  change (revealFirstCell m1) with (revealFirstCell m0). rewrite Hrev.
  cbn [negb]. unfold bind at 1.
  rewrite filterM_zero; [| exact Hs1 | exact (populatedSafe_inGrid m0)].
  change (safeCells m1) with (populatedSafe m0). fold zeroCells.
  change (zeroFirstCell m1) with (zeroFirstCell m0). rewrite Hzf.
  replace (0 <? Z.of_nat (length zeroCells)) with true
    by (destruct zeroCells; [congruence | reflexivity]).
  cbn [andb]. unfold bind at 1. rewrite Hpick.
  unfold bind at 1. change (set_matrix _ _) with (firstUnmasked m0 o).
  rewrite Hrun. destruct o; reflexivity.
Qed.
Lemma populated_cell_inGrid (m0 : Minesweeper) (i j : Z) (s : string) :
  shape (populated m0) -> cellAt (matrix (populated m0)) i j = Some s ->
  inGrid m0 i j /\ s = symbolAt m0 i j.
Proof.
  intros Hs H.
  assert (Hg : inGrid m0 i j).
  { destruct (inGridb m0 i j) eqn:E; [now apply inGridb_spec|].
    rewrite (cellAt_None_outside (populated m0)) in H; [discriminate | exact Hs |].
    intros Hg. change (inGrid m0 i j) in Hg. apply inGridb_spec in Hg. congruence. }
  split; [exact Hg|]. rewrite populated_cell in H by exact Hg. congruence.
Qed.

Lemma box_opening (m0 m1 : Minesweeper) (o z c : SafeCell) :
  zeroPath m1 o z -> box m0 z c -> inOpening m1 o c.
Proof.
  intros Hp [_ Hd]. exists z. split; [exact Hp|].
  destruct (Z.eq_dec (cheb z c) 1) as [E|E]; [now right|].
  left. unfold cheb in *. apply cell_eq; lia.
Qed.

Lemma opening_closed (m0 : Minesweeper) (o : SafeCell) (m2 : Minesweeper) :
  shape (populated m0) -> zeroCell m0 o ->
  rsPost m0 (populated m0) (firstUnmasked m0 o) o m2 ->
  forall z, zeroPath (populated m0) o z ->
    zeroCell m0 z /\ unmaskedAt m2 (x z) (y z) = true /\ closedAt m0 m2 z.
Proof.
  intros Hs1 Hzo (Hrs2 & _ & Hmono & _ & Hclosed & Hzc & _) z Hp.
  assert (Hg : inGrid m0 (x o) (y o)) by apply Hzo.
  assert (Hm : isMineAt m0 (x o) (y o) = false) by apply Hzo.
  destruct (firstUnmask_state m0 o (S (calls m0)) Hs1 Hg Hm) as (_ & Hu0 & _).
  fold (firstUnmasked m0 o) in Hu0.
  induction Hp as [|c c' Hp IH Hadj Hz].
  - split; [exact Hzo|]. split; [|exact Hclosed]. apply Hmono. now apply Hu0.
  - destruct IH as (Hzc_c & Hu_c & Hcl_c).
    pose proof (populated_zero_inGrid m0 _ _ Hs1 Hz) as Hg'.
    assert (Hb : box m0 c c') by (split; [exact Hg' | unfold adjacent in Hadj; lia]).
    pose proof (zeroCell_box_safe m0 c c' Hzc_c Hb) as Hm'.
    assert (Hzc' : zeroCell m0 c').
    { split; [exact Hg'|]. split; [exact Hm'|]. now apply populated_zero. }
    pose proof (Hcl_c c' Hb) as Hu'.
    split; [exact Hzc'|]. split; [exact Hu'|].
    destruct (Hzc c' Hzc' Hu') as [H|H]; [|exact H].
    apply Hu0 in H. subst c'. exact Hclosed.
Qed.

(** ** C3 *)

(** C3: on a populated field, with [revealFirstCell] and [zeroFirstCell]
    on and a zero among the safe cells, [revealFirst] completes (with fuel
    for a recursion as deep as the grid is large), its origin is a cell of
    the grid that holds the zero (so: not a mine, and no mine around it),
    and the cells of the grid it leaves unmasked are exactly those of
    the opening of the origin: the zeros reached from it through adjacent
    zeros, and the cells adjacent to one of those.  An unmasked cell holds
    its former symbol without the two characters at each end; every other
    cell keeps its symbol. *)
Theorem revealFirst_opening (rng : nat -> Q) (fuel : nat) (m0 m1 : Minesweeper) :
  shape m0 -> safeCells m0 = [] -> populate m0 = Done tt m1 ->
  revealFirstCell m0 = true -> zeroFirstCell m0 = true ->
  (exists c, In c (safeCells m1) /\ isZeroAt m1 (x c) (y c) = true) ->
  (0 <= rng (calls m1))%Q -> (rng (calls m1) < 1)%Q ->
  rows m0 * columns m0 <= Z.of_nat fuel ->
  exists o m2,
    revealFirst rng fuel m1 = Done o m2 /\
    inGrid m0 (x o) (y o) /\
    isZeroAt m1 (x o) (y o) = true /\
    isMineAt m0 (x o) (y o) = false /\
    mooreMines m0 (x o) (y o) = 0 /\
    (forall c, inGrid m0 (x c) (y c) ->
       (unmaskedAt m2 (x c) (y c) = true <-> inOpening m1 o c)) /\
    (forall i j s, cellAt (matrix m1) i j = Some s ->
       cellAt (matrix m2) i j
       = Some (if unmaskedAt m2 i j then Js.slice s 2 (-2) else s)).
Proof.
  intros Hs Hsafe Hpop Hrev Hzf Hex H0 H1 Hfuel.
  pose proof (populated_eq _ _ Hs Hsafe Hpop) as ->. fold (populated m0) in *.
  assert (Hs1 : shape (populated m0)).
  { apply populated_shape_safe; [exact Hs|]. destruct Hex as (c & Hc & _).
    intros E. change (safeCells (populated m0)) with (populatedSafe m0) in Hc.
    rewrite E in Hc. destruct Hc. }
  destruct (revealFirst_zero rng fuel m0 Hs Hrev Hzf Hex
              (exact_unitValue _ _ H0 H1) Hfuel)
    as (o & m2 & Hrun & Hin & Hzo & Hpost).
  exists o, m2. split; [exact Hrun|].
  pose proof Hzo as (Hg & Hm & Hcount).
  split; [exact Hg|]. split; [now apply zeroCell_populated|]. split; [exact Hm|].
  split; [now rewrite <- counterAt_moore|].
  pose proof Hpost as (Hrs2 & _ & Hmono & Hsound & Hclosed & Hzc & _).
  destruct (firstUnmask_state m0 o (S (calls m0)) Hs1 Hg Hm) as (_ & Hu0 & _).
  fold (firstUnmasked m0 o) in Hu0.
  split.
  - intros c Hgc. split.
    + intros Hu. destruct (Hsound c Hu) as [H|(z' & Hp & Hb)].
      * apply Hu0 in H. subst c. exists o. split; [apply zp_origin | now left].
      * eapply box_opening; eassumption.
    + intros (z & Hp & Hc).
      destruct (opening_closed m0 o m2 Hs1 Hzo Hpost z Hp) as (_ & Hu & Hcl).
      destruct Hc as [->|Hadj]; [exact Hu|].
      apply Hcl. split; [exact Hgc | unfold adjacent in Hadj; lia].
  - intros i j s Hcell.
    destruct (populated_cell_inGrid m0 i j s Hs1 Hcell) as [Hgc ->].
    destruct (revealState_unmasked m0 m2 i j Hrs2 Hgc) as [[Hu Hc]|(Hu & _ & Hc)];
      now rewrite Hu, Hc.
Qed.

(** ** [generateEmptyMatrix] *)





(** ** [plantMines] *)

Lemma remove_length_NoDup (c : SafeCell) (l : list SafeCell) :
  List.NoDup l -> (length l <= S (length (remove SafeCell_eq_dec c l)))%nat.
Proof.
  induction 1 as [|a l Hnotin Hnd IH]; cbn [remove length]; [lia|].
  destruct (SafeCell_eq_dec c a) as [<-|Hne].
  - rewrite notin_remove by exact Hnotin. lia.
  - cbn [length]. lia.
Qed.

Lemma remove_NoDup (c : SafeCell) (l : list SafeCell) :
  List.NoDup l -> List.NoDup (remove SafeCell_eq_dec c l).
Proof.
  induction 1 as [|a l Hnotin Hnd IH]; cbn [remove]; [constructor|].
  destruct (SafeCell_eq_dec c a); [exact IH|].
  constructor; [|exact IH]. intros Hin. apply in_remove in Hin as [Hin _]. auto.
Qed.

Lemma attempts_S {V} `{RandomValue V} (rng : nat -> V)
    (m m' : Minesweeper) (n : nat) :
  rows m' = rows m -> columns m' = columns m -> calls m' = S (S (calls m)) ->
  attempts rng m (S n)
  = attemptAt rng (calls m) (rows m) (columns m) 0 :: attempts rng m' n.
Proof.
  intros Hr Hc Hcalls. unfold attempts. rewrite Hr, Hc, Hcalls.
  cbn [seq map]. f_equal. rewrite <- seq_shift, map_map.
  apply map_ext. intros k. unfold attemptAt. f_equal; do 2 f_equal; lia.
Qed.

Lemma sameConfig_refl (m : Minesweeper) : sameConfig m m.
Proof. repeat split. Qed.

Lemma sameConfig_trans (a b c : Minesweeper) :
  sameConfig a b -> sameConfig b c -> sameConfig a c.
Proof.
  intros (A1 & A2 & A3 & A4 & A5 & A6 & A7 & A8) (B1 & B2 & B3 & B4 & B5 & B6 & B7 & B8).
  repeat split; congruence.
Qed.

Lemma types_config (m m' : Minesweeper) : sameConfig m m' -> types m' = types m.
Proof. intros (_ & _ & _ & He & Hs & _). unfold types. now rewrite He, Hs. Qed.

Section PlantMines.

Context {V : Type} {RV : RandomValue V}.
Variable rng : nat -> V.
Variable N : Z.
Hypothesis rng_unit : forall k, unitValue N (rng k).

Lemma plantMines_from_ok (n : nat) :
  forall fuel i m,
    shape m -> 0 < rows m <= N -> 0 < columns m <= N ->
    0 <= i <= mines m ->
    Z.of_nat (occ (mine (types m)) (matrix m)) = i ->
    (exists l, List.NoDup l /\ mines m - i <= Z.of_nat (length l) /\
               forall c, In c l ->
                 In c (attempts rng m n) /\ isMineAt m (x c) (y c) = false) ->
    (n < fuel)%nat ->
    exists m',
      plantMines_from rng fuel i m = Done tt m' /\
      shape m' /\ sameConfig m m' /\ safeCells m' = safeCells m /\
      Z.of_nat (occ (mine (types m)) (matrix m')) = mines m /\
      (forall i j s, cellAt (matrix m') i j = Some s ->
         s = mine (types m) \/ cellAt (matrix m) i j = Some s).
Proof.
  induction n as [|n IH]; intros fuel i m Hs Hr Hc Hi Hocc (l & Hnd & Hlen & Hl) Hfuel.
  - destruct fuel as [|fuel]; [lia|].
    assert (l = []) as ->.
    { destruct l as [|c l]; [reflexivity|].
      destruct (Hl c (or_introl eq_refl)) as [[] _]. }
    cbn in Hlen. cbn [plantMines_from]. unfold bind, this.
    replace (i <? mines m) with false by lia.
    exists m. split; [reflexivity|]. split; [exact Hs|].
    split; [apply sameConfig_refl|]. split; [reflexivity|]. split; [lia | auto].
  - destruct fuel as [|fuel]; [lia|].
    cbn [plantMines_from]. unfold bind at 1. unfold this at 1.
    destruct (Z.ltb_spec i (mines m)) as [Hlt|Hge].
    2:{ exists m. split; [reflexivity|]. split; [exact Hs|].
        split; [apply sameConfig_refl|]. split; [reflexivity|]. split; [lia | auto]. }
    unfold bind at 1. unfold randomIndex at 1.
    unfold bind at 1. unfold randomIndex at 1.
    cbn [calls rows columns set_calls].
    set (c0 := attemptAt rng (calls m) (rows m) (columns m) 0).
    set (md := set_calls (S (S (calls m))) (set_calls (S (calls m)) m)).
    assert (Hx : floorMul (rng (calls m)) (rows m) = x c0)
      by (unfold c0, attemptAt; cbn [x]; do 2 f_equal; lia).
    assert (Hy : floorMul (rng (S (calls m))) (columns m) = y c0)
      by (unfold c0, attemptAt; cbn [y]; do 2 f_equal; lia).
    rewrite Hx, Hy.
    assert (Hg : inGrid m (x c0) (y c0)).
    { unfold c0, attemptAt. cbn [x y].
      split; apply rng_unit; assumption. }
    assert (Hsd : shape md) by exact Hs.
    unfold bind at 1. rewrite readCell_inGrid by assumption.
    change (matrix md) with (matrix m). fold (isMineAt m (x c0) (y c0)).
    pose proof (attempts_S rng m md n eq_refl eq_refl eq_refl) as Hatt.
    fold c0 in Hatt.
    destruct (isMineAt m (x c0) (y c0)) eqn:Hm0.
    + replace (i - 1 + 1) with i by lia.
      destruct (IH fuel i md Hsd Hr Hc Hi Hocc) as (m' & Hrun & Hrest); [|lia|].
      { exists l. split; [exact Hnd|]. split; [exact Hlen|].
        intros c Hin. destruct (Hl c Hin) as [Ha Hmc]. split; [|exact Hmc].
        rewrite Hatt in Ha. destruct Ha as [<-|Ha]; [congruence | exact Ha]. }
      exists m'. split; [exact Hrun|]. exact Hrest.
    + destruct (cellAt_Some_inGrid m _ _ Hs Hg) as [old Hold].
      assert (Hold_ne : String.eqb (mine (types m)) old = false).
      { unfold isMineAt in Hm0. rewrite Hold in Hm0. cbn in Hm0.
        now rewrite String.eqb_sym. }
      unfold bind at 1. rewrite writeCell_inGrid by assumption.
      change (matrix md) with (matrix m).
      set (mw := set_matrix _ md).
      assert (Hcellw : forall i' j',
                 cellAt (matrix mw) i' j'
                 = if (i' =? x c0) && (j' =? y c0)
                   then Some (mine (types m)) else cellAt (matrix m) i' j').
      { intros i' j'. apply (cellAt_gridSet _ _ _ _ _ _ _ Hold). }
      destruct (IH fuel (i + 1) mw) as (m' & Hrun & Hs' & Hcfg' & Hsafe' & Hocc' & Hcells');
        [apply (gridSet_shape md); exact Hsd | exact Hr | exact Hc
        | change (mines mw) with (mines m); lia | | | lia |].
      { pose proof (occ_gridSet (mine (types m)) (matrix m) (x c0) (y c0)
                      (mine (types m)) old Hold) as Ho.
        rewrite Hold_ne, String.eqb_refl in Ho.
        cbn [matrix mw set_matrix]. change (types mw) with (types m). lia. }
      { exists (remove SafeCell_eq_dec c0 l).
        split; [now apply remove_NoDup|].
        change (mines mw) with (mines m).
        split; [pose proof (remove_length_NoDup c0 l Hnd); lia|].
        intros c Hin. apply in_remove in Hin as [Hin Hne].
        destruct (Hl c Hin) as [Ha Hmc]. split.
        - rewrite Hatt in Ha. destruct Ha as [<-|Ha]; [congruence | exact Ha].
        - unfold isMineAt. rewrite Hcellw.
          destruct (Z.eqb_spec (x c) (x c0)) as [Ex|]; [|exact Hmc].
          destruct (Z.eqb_spec (y c) (y c0)) as [Ey|]; [|exact Hmc].
          exfalso. apply Hne. now apply cell_eq. }
      exists m'. split; [exact Hrun|]. split; [exact Hs'|].
      split; [exact Hcfg'|]. split; [exact Hsafe'|]. split; [exact Hocc'|].
      intros i' j' s Hcell. destruct (Hcells' i' j' s Hcell) as [H|H]; [now left|].
      rewrite Hcellw in H.
      destruct ((i' =? x c0) && (j' =? y c0)); [left; congruence | now right].
Qed.

End PlantMines.
(** ** The mine marker and the number markers *)

Lemma string_app_inv_r (a b t : string) : (a ++ t = b ++ t)%string -> a = b.
Proof.
  revert b. induction a as [|c a IH]; intros [|d b] H; cbn in H.
  - reflexivity.
  - apply (f_equal String.length) in H. cbn in H. rewrite string_length_app in H. lia.
  - apply (f_equal String.length) in H. cbn in H. rewrite string_length_app in H. lia.
  - injection H as -> H. f_equal. now apply IH.
Qed.

Lemma spoilerize_inj (sp : bool) (a b : string) :
  spoilerize sp a = spoilerize sp b -> a = b.
Proof.
  unfold spoilerize. destruct sp; cbn; intros H; injection H as H;
    now apply string_app_inv_r in H.
Qed.


(** ** Counting cells *)


Lemma index_of_nat {A} (l : list A) (n : nat) : Js.index l (Z.of_nat n) = l !! n.
Proof.
  unfold Js.index. destruct (Z.ltb_spec (Z.of_nat n) 0); [lia|].
  now rewrite Nat2Z.id.
Qed.




Lemma occ_none (v : string) (g : list (list string)) :
  (forall i j s, cellAt g i j = Some s -> String.eqb v s = false) ->
  occ v g = 0%nat.
Proof.
  intros H. unfold occ.
  assert (Hall : forall s, In s (concat g) -> String.eqb v s = false).
  { intros s Hin. apply in_concat in Hin as (row & Hrow & Hin).
    apply list_elem_of_In, list_elem_of_lookup_1 in Hrow as [n Hn].
    apply list_elem_of_In, list_elem_of_lookup_1 in Hin as [k Hk].
    apply (H (Z.of_nat n) (Z.of_nat k)). unfold cellAt.
    now rewrite index_of_nat, Hn, index_of_nat. }
  clear -Hall. induction (concat g) as [|s l IH]; [reflexivity|].
  cbn [List.filter]. rewrite (Hall s) by now left.
  apply IH. intros s' Hs'. apply Hall. now right.
Qed.



Lemma revealFirst_else {V} `{RandomValue V} (rng : nat -> V) (fuel : nat)
    (m0 : Minesweeper) :
  shape (populated m0) -> populatedSafe m0 <> [] ->
  revealFirstCell m0 = true ->
  zeroFirstCell m0 &&
    (0 <? Z.of_nat (length (List.filter
       (fun c => isZeroAt (populated m0) (x c) (y c)) (populatedSafe m0)))) = false ->
  unitValue (rows m0 * columns m0) (rng (calls m0)) ->
  exists o,
    In o (populatedSafe m0) /\
    revealFirst rng fuel (populated m0) = Done o (firstUnmasked m0 o).
Proof.
  intros Hs1 Hne Hrev Hcond Hu.
  set (m1 := populated m0) in *.
  assert (Hlen : Z.of_nat (length (populatedSafe m0)) <= rows m0 * columns m0)
    by (apply safe_cells_bound; [lia | exact Hne]).
  destruct (pickAndUnmask_ok rng m1 (safeCells m1) Hs1 (populatedSafe_inGrid m0) Hne
              (unitValue_le _ _ _ Hlen Hu))
    as (o & s & Hin & Hcell & Hpick).
  pose proof Hin as Hin'. apply populatedSafe_In in Hin' as [Hg Hm].
  unfold m1 in Hcell. rewrite populated_cell in Hcell by exact Hg.
  injection Hcell as <-.
  exists o. split; [exact Hin|].
  unfold revealFirst. unfold bind at 1. unfold this at 1.
  change (revealFirstCell m1) with (revealFirstCell m0). rewrite Hrev.
  cbn [negb]. unfold bind at 1.
  rewrite filterM_zero; [| exact Hs1 | exact (populatedSafe_inGrid m0)].
  change (zeroFirstCell m1) with (zeroFirstCell m0).
  change (safeCells m1) with (populatedSafe m0) in *. rewrite Hcond.
  unfold bind at 1. rewrite Hpick. destruct o; reflexivity.
Qed.

(** ** C1 *)


(** ** [plantMines], step by step *)

Lemma plantMines_step {V} `{RandomValue V} (rng : nat -> V) (fuel : nat)
    (i : Z) (m : Minesweeper) :
  let c := attemptAt rng (calls m) (rows m) (columns m) 0 in
  let md := set_calls (S (S (calls m))) m in
  shape m -> inGrid m (x c) (y c) -> i < mines m ->
  plantMines_from rng (S fuel) i m
  = if isMineAt m (x c) (y c)
    then plantMines_from rng fuel i md
    else plantMines_from rng fuel (i + 1)
           (set_matrix (gridSet (matrix m) (x c) (y c) (mine (types m))) md).
Proof.
  intros c md Hs Hg Hi.
  cbn [plantMines_from]. unfold bind at 1. unfold this at 1.
  replace (i <? mines m) with true by lia.
  unfold bind at 1. unfold randomIndex at 1.
  unfold bind at 1. unfold randomIndex at 1.
  cbn [calls rows columns set_calls].
  assert (Hx : floorMul (rng (calls m)) (rows m) = x c)
    by (unfold c, attemptAt; cbn [x]; do 2 f_equal; lia).
  assert (Hy : floorMul (rng (S (calls m))) (columns m) = y c)
    by (unfold c, attemptAt; cbn [y]; do 2 f_equal; lia).
  rewrite Hx, Hy.
  change (set_calls (S (S (calls m))) (set_calls (S (calls m)) m)) with md.
  unfold bind at 1. rewrite (readCell_inGrid md) by assumption.
  change (matrix md) with (matrix m). fold (isMineAt m (x c) (y c)).
  destruct (isMineAt m (x c) (y c)).
  - replace (i - 1 + 1) with i by lia. reflexivity.
  - unfold bind at 1. rewrite (writeCell_inGrid md) by assumption. reflexivity.
Qed.



(** ** C1: what the statement cannot do without *)

(** ** Rounded products *)

(** The double next to 1/3, times 3, is rounded to 1: the code draws the
    index 1 where the exact product of the same value gives the index 0. *)
Example floor_mul_rounded :
  FloatOps.Prim2SF double_third
  = SpecFloat.S754_finite false 6004799503160661 (-54) /\
  floorMul double_third 3 = 1 /\ floorMul exact_third 3 = 0.
Proof. repeat split; vm_compute; reflexivity. Qed.

(** So the cells [plantMines] draws from a source are those of the source's
    own products.  On a 3 x 2 field with two mines, a source that repeats
    0.3333333333333333, 0, 0.5, 0 draws the cell (1, 0) at every attempt
    and [start] is still planting after 40 of them; with exact products the
    first two attempts would draw (0, 0) and (1, 0), and [start] would
    complete. *)
Example start_rounded_draws :
  let m := constructor (Some (fieldOpts 3 2 2 false)) in
  let doubles := cycleRng double_zero
                   [double_third; double_zero; double_half; double_zero] in
  let exacts := cycleRng 0%Q [exact_third; 0%Q; 1 # 2; 0%Q] in
  attempts doubles m 4 = [ {| x := 1; y := 0 |}; {| x := 1; y := 0 |};
                           {| x := 1; y := 0 |}; {| x := 1; y := 0 |} ] /\
  start doubles 40 m = OutOfFuel /\
  attempts exacts m 2 = [ {| x := 0; y := 0 |}; {| x := 1; y := 0 |} ] /\
  exists g m', start exacts 40 m = Done (OMatrix g) m'.
Proof.
  cbv zeta. split; [vm_compute; reflexivity|].
  split; [vm_compute; reflexivity|].
  split; [vm_compute; reflexivity|].
  eexists _, _. vm_compute. reflexivity.
Qed.

(** ** The theorems at work on small fields *)

Lemma cornerField_shape : shape cornerField.
Proof. split; [reflexivity | repeat constructor]. Qed.

Lemma centreField_shape : shape centreField.
Proof. split; [reflexivity | repeat constructor]. Qed.


Lemma populate_moore_counts_witness :
  shape cornerField /\
  exists m1,
    populate cornerField = Done tt m1 /\
    cellAt (matrix m1) 0 0 = Some (mine (types cornerField)) /\
    cellAt (matrix m1) 1 1 = Some (number_at cornerField 1) /\
    cellAt (matrix m1) 2 2 = Some (number_at cornerField 0).
Proof.
  split; [exact cornerField_shape|].
  destruct (populate_moore_counts cornerField cornerField_shape) as (m1 & Hrun & Hcells).
  exists m1. split; [exact Hrun|].
  assert (Hg : forall i j, 0 <= i < 3 -> 0 <= j < 3 -> inGrid cornerField i j)
    by (intros i j Hi Hj; split; assumption).
  split; [|split].
  - apply (Hcells 0 0); [apply Hg; lia | reflexivity].
  - apply (Hcells 1 1); [apply Hg; lia | reflexivity].
  - apply (Hcells 2 2); [apply Hg; lia | reflexivity].
Defined.

Lemma revealFirst_opening_witness :
  exists o m2,
    revealFirst (constRng (1 # 2)) 9 (populated cornerField) = Done o m2 /\
    isZeroAt (populated cornerField) (x o) (y o) = true /\
    (forall c, inGrid cornerField (x c) (y c) ->
       (unmaskedAt m2 (x c) (y c) = true <-> inOpening (populated cornerField) o c)).
Proof.
  destruct (revealFirst_opening (constRng (1 # 2)) 9 cornerField (populated cornerField))
    as (o & m2 & H1 & _ & H3 & _ & _ & H6 & _).
  - exact cornerField_shape.
  - reflexivity.
  - exact (populate_ok cornerField cornerField_shape).
  - reflexivity.
  - reflexivity.
  - exists {| x := 2; y := 2 |}. split; [vm_compute; tauto | reflexivity].
  - vm_compute. discriminate.
  - reflexivity.
  - vm_compute. discriminate.
  - exists o, m2. auto.
Defined.

Lemma revealFirst_single_witness :
  exists o m2,
    revealFirst (constRng (1 # 2)) 0 (populated centreField) = Done o m2 /\
    isMineAt centreField (x o) (y o) = false /\
    (forall i j, inGrid centreField i j ->
       (unmaskedAt m2 i j = true <-> i = x o /\ j = y o)).
Proof.
  destruct (revealFirst_single (constRng (1 # 2)) 0 centreField (populated centreField))
    as (o & m2 & H1 & _ & H3 & _ & H5 & _).
  - exact centreField_shape.
  - reflexivity.
  - exact (populate_ok centreField centreField_shape).
  - reflexivity.
  - right. intros c Hc. vm_compute in Hc.
    repeat (destruct Hc as [<-|Hc]; [reflexivity|]). destruct Hc.
  - vm_compute. discriminate.
  - vm_compute. discriminate.
  - reflexivity.
  - exists o, m2. auto.
Defined.

(** A 2 x 2 field with one mine: the three other cells count one mine. *)
Example start_2x2 :
  exists m',
    start (constRng 0) 4 (constructor (Some (fieldOpts 2 2 1 false)))
    = Done (OMatrix [ [ "|| :boom: ||"; "|| :one: ||" ];
                      [ "|| :one: ||"; "|| :one: ||" ] ]%string) m'.
Proof. eexists. vm_compute. reflexivity. Qed.

(** Five mines are too many for a 3 x 3 field. *)
Example start_3x3_five :
  let m := constructor (Some (fieldOpts 3 3 5 false)) in
  start (constRng 0) 4 m = Done ONull m.
Proof. reflexivity. Qed.

(** The opening of the corner field, from the zero at (2, 0): the mine stays
    masked, the eight other cells are unmasked. *)
Example revealFirst_corner :
  exists m2,
    revealFirst (constRng (1 # 2)) 9 (populated cornerField)
    = Done {| x := 2; y := 0 |} m2 /\
    matrix m2 = [ [ "|| :boom: ||"; " :one: "; " :zero: " ];
                  [ " :one: "; " :one: "; " :zero: " ];
                  [ " :zero: "; " :zero: "; " :zero: " ] ]%string.
Proof. eexists. split; vm_compute; reflexivity. Qed.

(** Without fuel for the recursion the model stops; one unit per zero of the
    opening is enough. *)
Example revealFirst_corner_fuel :
  revealFirst (constRng (1 # 2)) 0 (populated cornerField) = OutOfFuel /\
  exists o m2, revealFirst (constRng (1 # 2)) 5 (populated cornerField) = Done o m2.
Proof. split; [reflexivity|]. eexists _, _. vm_compute. reflexivity. Qed.

(** * Further properties of the methods *)

(** ** [spoilerize] *)

(** X1: whatever the text, [spoilerize] yields a spoiler (a string with
    two bars [isSpoiler] finds), longer than the text by the eight or six
    characters of the wrapper, and two texts with the same wrapping are
    equal. *)
Theorem spoilerize_wrapper (sp : bool) (str : string) :
  isSpoiler (spoilerize sp str) = true /\
  String.length (spoilerize sp str)
  = (String.length str + (if sp then 8 else 6))%nat /\
  forall str', spoilerize sp str = spoilerize sp str' -> str = str'.
Proof.
  split; [|split].
  - destruct sp; reflexivity.
  - unfold spoilerize. destruct sp; cbn [String.append String.length];
      rewrite string_length_app; cbn [String.length]; lia.
  - intros str'. apply spoilerize_inj.
Qed.

(** ** [generateEmptyMatrix] *)



(** X3: with at least one row to push and a width that is not the length
    of a JS array (negative, or 2^32 and more), [generateEmptyMatrix] raises
    [RangeError] before it changes the instance. *)
Theorem generateEmptyMatrix_bad_width (m : Minesweeper) :
  0 < rows m -> columns m < 0 \/ 2 ^ 32 <= columns m ->
  generateEmptyMatrix m = Throw RangeError m.
Proof.
  intros Hr Hc. unfold generateEmptyMatrix. unfold bind at 1. unfold this at 1.
  unfold range. replace (rows m - 1 - 0 + 1) with (rows m) by lia.
  destruct (Z.to_nat (rows m)) as [|n] eqn:E; [lia|].
  cbn [zseq foldM]. unfold bind at 1. unfold bind at 1. unfold newRow.
  unfold bind at 1. unfold this at 1.
  replace ((columns m <? 0) || (2 ^ 32 <=? columns m)) with true by lia.
  reflexivity.
Qed.

Lemma generateEmptyMatrix_bad_width_witness :
  let m := constructor (Some (fieldOpts 2 (-3) 1 false)) in
  generateEmptyMatrix m = Throw RangeError m.
Proof.
  cbv zeta. apply generateEmptyMatrix_bad_width; [reflexivity | left; reflexivity].
Defined.

(** ** [plantMines] *)

(** X4: on a grid without a mine, of at most 2 ^ 53 cells (the sizes and
    the counter of the loop are then exact), with a random source each
    value [r] of which yields an index of every array of at most
    [rows * columns] elements ([0 <= Math.floor(r * n) < n], as the numbers
    of [0, 1) do) and whose first [n] attempts, the cells
    [(Math.floor(r * rows), Math.floor(r' * columns))], hit at least
    [mines] distinct cells, [plantMines] completes within [n] attempts:
    exactly [mines] cells hold the mine marker afterwards, every other cell
    keeps its symbol, and the list of safe cells is not touched.
    [Math.floor(r * n)] is whatever the values of the source make it: the
    statement holds for doubles with their rounded product as for
    rationals. *)
Theorem plantMines_plants {V} `{RandomValue V} (rng : nat -> V) (fuel n : nat)
    (m : Minesweeper) :
  shape m -> 0 < rows m -> 0 < columns m -> 0 <= mines m ->
  rows m * columns m <= 2 ^ 53 ->
  (forall i j, isMineAt m i j = false) ->
  (forall k, unitValue (rows m * columns m) (rng k)) ->
  mines m <= Z.of_nat (distinctAttempts rng m n) ->
  (n < fuel)%nat ->
  exists m',
    plantMines rng fuel m = Done tt m' /\
    shape m' /\ safeCells m' = safeCells m /\
    Z.of_nat (occ (mine (types m)) (matrix m')) = mines m /\
    (forall i j s, cellAt (matrix m') i j = Some s ->
       s = mine (types m) \/ cellAt (matrix m) i j = Some s).
Proof.
  intros Hs Hr Hc Hm _ Hnone Hrng Hdist Hfuel.
  assert (Hr53 : 0 < rows m <= rows m * columns m) by nia.
  assert (Hc53 : 0 < columns m <= rows m * columns m) by nia.
  destruct (plantMines_from_ok rng _ Hrng n fuel 0 m Hs Hr53 Hc53)
    as (m' & Hrun & Hs' & _ & Hsafe & Hocc & Hcells); [lia | | | exact Hfuel |].
  - rewrite occ_none; [reflexivity|]. intros i j s Hcell.
    specialize (Hnone i j). unfold isMineAt in Hnone. rewrite Hcell in Hnone.
    cbn in Hnone. now rewrite String.eqb_sym.
  - exists (nodup SafeCell_eq_dec (attempts rng m n)).
    split; [apply NoDup_nodup|]. split; [unfold distinctAttempts in Hdist; lia|].
    intros c Hin. apply nodup_In in Hin. auto.
  - exists m'. auto.
Qed.

Lemma plantMines_plants_witness :
  let m := set_matrix (replicate 3 (replicate 3 "|| :zero: ||"%string))
             (constructor (Some (fieldOpts 3 3 2 false))) in
  let rng := cycleRng double_zero
               [double_zero; double_zero; double_zero; double_zero;
                double_half; double_half] in
  exists m',
    plantMines rng 4 m = Done tt m' /\
    Z.of_nat (occ (mine (types m)) (matrix m')) = 2.
Proof.
  cbv zeta.
  destruct (plantMines_plants
              (cycleRng double_zero
                 [double_zero; double_zero; double_zero; double_zero;
                  double_half; double_half]) 4 3
              (set_matrix (replicate 3 (replicate 3 "|| :zero: ||"%string))
                 (constructor (Some (fieldOpts 3 3 2 false)))))
    as (m' & Hrun & _ & _ & Hocc & _).
  - split; [reflexivity | repeat constructor].
  - reflexivity.
  - reflexivity.
  - discriminate.
  - vm_compute. discriminate.
  - intros i j. unfold isMineAt.
    destruct (cellAt _ i j) as [s|] eqn:E; [|reflexivity].
    unfold cellAt in E.
    destruct (Js.index _ i) as [row|] eqn:Hrow; [|discriminate].
    apply index_Some in Hrow as [_ Hrow]. apply index_Some in E as [_ E].
    cbn [matrix set_matrix] in Hrow.
    apply lookup_replicate in Hrow as [-> _].
    apply lookup_replicate in E as [-> _]. reflexivity.
  - apply cycleRng_Forall; [discriminate|].
    repeat (apply List.Forall_cons;
            [apply (unitValueb_spec 9); vm_compute; reflexivity|]).
    apply List.Forall_nil.
  - vm_compute. discriminate.
  - lia.
  - exists m'. split; [exact Hrun | exact Hocc].
Defined.

(** X5: [plantMines] calls the random source twice per attempt, for the
    row and then for the column, and makes at least one attempt per mine
    still to plant: when the loop, entered with its counter at [i],
    completes, the number of calls has grown by [2 * k] for a number [k] of
    attempts with [mines - i <= k]. *)
Theorem plantMines_draws_in_pairs (rng : nat -> Q) (fuel : nat) :
  forall i m m',
    plantMines_from rng fuel i m = Done tt m' ->
    exists k : nat,
      calls m' = (calls m + 2 * k)%nat /\ mines m - i <= Z.of_nat k /\
      (k < fuel)%nat.
Proof.
  induction fuel as [|fuel IH]; intros i m m' H; [discriminate|].
  cbn [plantMines_from] in H. unfold bind at 1 in H. unfold this at 1 in H.
  destruct (Z.ltb_spec i (mines m)) as [Hlt|Hge].
  2:{ injection H as <-. exists 0%nat. repeat split; lia. }
  unfold bind at 1 in H. unfold randomIndex at 1 in H.
  unfold bind at 1 in H. unfold randomIndex at 1 in H.
  cbn [calls rows columns set_calls] in H.
  set (md := set_calls (S (S (calls m))) (set_calls (S (calls m)) m)) in H.
  unfold bind at 1 in H. unfold readCell at 1 in H.
  unfold bind at 1 in H. unfold this at 1 in H.
  destruct (Js.index (matrix md) _) as [row|]; [|discriminate].
  unfold ret at 1 in H.
  destruct (strict_eq _ _).
  - apply IH in H as (k & Hk & Hle & Hf). exists (S k).
    change (calls md) with (S (S (calls m))) in Hk.
    change (mines md) with (mines m) in Hle. repeat split; lia.
  - unfold bind at 1 in H. unfold writeCell at 1 in H.
    unfold bind at 1 in H. unfold this at 1 in H.
    destruct (Js.index (matrix md) _) as [row'|]; [|discriminate].
    destruct (Js.index row' _); [|discriminate].
    unfold modify at 1 in H.
    apply IH in H as (k & Hk & Hle & Hf). exists (S k).
    cbn [calls mines set_matrix md set_calls] in Hk, Hle. repeat split; lia.
Qed.

Lemma plantMines_draws_in_pairs_witness :
  let m := set_matrix (replicate 3 (replicate 3 "|| :zero: ||"%string))
             (constructor (Some (fieldOpts 3 3 2 false))) in
  exists m' k,
    plantMines_from (listRng [0; 0; 0; 0; 1 # 2; 1 # 2]%Q) 4 0 m = Done tt m' /\
    calls m' = (calls m + 2 * k)%nat /\ mines m - 0 <= Z.of_nat k /\ (k < 4)%nat.
Proof.
  cbv zeta. eexists.
  assert (H : plantMines_from (listRng [0; 0; 0; 0; 1 # 2; 1 # 2]%Q) 4 0
                (set_matrix (replicate 3 (replicate 3 "|| :zero: ||"%string))
                   (constructor (Some (fieldOpts 3 3 2 false))))
              = Done tt _) by (vm_compute; reflexivity).
  destruct (plantMines_draws_in_pairs _ _ _ _ _ H) as (k & H1 & H2 & H3).
  exists k. split; [exact H|]. split; [exact H1|]. split; [exact H2 | exact H3].
Defined.

Lemma plantMines_stuck_at (q : Q) (fuel : nat) :
  forall i m,
    shape m ->
    inGrid m (Js.floor_mul q (rows m)) (Js.floor_mul q (columns m)) ->
    i < mines m ->
    isMineAt m (Js.floor_mul q (rows m)) (Js.floor_mul q (columns m)) = true ->
    plantMines_from (constRng q) fuel i m = OutOfFuel.
Proof.
  induction fuel as [|fuel IH]; intros i m Hs Hg Hi Hm; [reflexivity|].
  rewrite plantMines_step; [| exact Hs | exact Hg | exact Hi].
  unfold attemptAt, constRng, floorMul, exactValue. cbn [x y]. rewrite Hm.
  now apply IH.
Qed.

(** X6: a random source that returns the same value of [0, 1) at every
    call draws the same cell at every attempt; with two mines or more to
    plant, [plantMines] never completes, whatever the fuel. *)
Theorem plantMines_constant_source (q : Q) (fuel : nat) (m : Minesweeper) :
  (0 <= q)%Q -> (q < 1)%Q ->
  shape m -> 0 < rows m -> 0 < columns m -> 2 <= mines m ->
  plantMines (constRng q) fuel m = OutOfFuel.
Proof.
  intros H0 H1 Hs Hr Hc Hm.
  assert (Hg : inGrid m (Js.floor_mul q (rows m)) (Js.floor_mul q (columns m)))
    by (split; apply floor_mul_range; assumption).
  destruct fuel as [|fuel]; [reflexivity|].
  unfold plantMines. rewrite plantMines_step; [| exact Hs | exact Hg | lia].
  unfold attemptAt, constRng, floorMul, exactValue. cbn [x y].
  destruct (isMineAt m _ _) eqn:Hmine.
  - apply plantMines_stuck_at; [exact Hs | exact Hg | | exact Hmine].
    change (mines (set_calls _ m)) with (mines m). lia.
  - destruct (cellAt_Some_inGrid m _ _ Hs Hg) as [old Hold].
    apply plantMines_stuck_at.
    + apply (gridSet_shape (set_calls (S (S (calls m))) m)). exact Hs.
    + exact Hg.
    + change (mines (set_matrix _ _)) with (mines m). lia.
    + unfold isMineAt. cbn [matrix rows columns set_matrix set_calls].
      rewrite (cellAt_gridSet _ _ _ _ _ _ _ Hold), !Z.eqb_refl. cbn [andb strict_eq].
      apply String.eqb_refl.
Qed.

Lemma plantMines_constant_source_witness :
  plantMines (constRng (1 # 3)) 50 (set_matrix (matrix cornerField)
                                         (constructor (Some (fieldOpts 3 3 2 false))))
  = OutOfFuel.
Proof.
  apply plantMines_constant_source.
  - discriminate.
  - reflexivity.
  - split; [reflexivity | repeat constructor].
  - reflexivity.
  - reflexivity.
  - discriminate.
Defined.

(** ** A random source outside [0, 1) *)

Lemma floor_mul_negative (r : Q) (n : Z) :
  (r < 0)%Q -> 0 < n -> Js.floor_mul r n < 0.
Proof.
  intros Hr Hn. unfold Js.floor_mul. rewrite Zlt_Qlt.
  eapply Qle_lt_trans; [apply Qfloor_le|].
  rewrite <- (Qmult_0_l (inject_Z n)).
  apply Qmult_lt_compat_r; [|exact Hr].
  change 0%Q with (inject_Z 0). rewrite <- Zlt_Qlt. lia.
Qed.

Lemma floor_mul_large (r : Q) (n : Z) :
  (1 <= r)%Q -> 0 <= n -> n <= Js.floor_mul r n.
Proof.
  intros Hr Hn. unfold Js.floor_mul.
  rewrite <- (Qfloor_Z n) at 1. apply Qfloor_resp_le.
  rewrite <- (Qmult_1_l (inject_Z n)) at 1.
  apply Qmult_le_compat_r; [exact Hr|].
  change 0%Q with (inject_Z 0). rewrite <- Zle_Qle. lia.
Qed.

Lemma index_outside {A} (l : list A) (k : Z) :
  k < 0 \/ Z.of_nat (length l) <= k -> Js.index l k = None.
Proof.
  intros H. unfold Js.index. destruct (Z.ltb_spec k 0); [reflexivity|].
  apply lookup_ge_None. lia.
Qed.

(** X7: when the random source returns a value outside [0, 1) for the row
    of the first attempt, [plantMines] does not loop: the row it indexes is
    [undefined] and reading its column raises [TypeError], after the two
    draws of the attempt and before any cell is written. *)
Theorem plantMines_row_out_of_range (rng : nat -> Q) (fuel : nat) (m : Minesweeper) :
  shape m -> 0 < rows m -> 0 < mines m ->
  (rng (calls m) < 0)%Q \/ (1 <= rng (calls m))%Q ->
  plantMines rng (S fuel) m = Throw TypeError (set_calls (S (S (calls m))) m).
Proof.
  intros Hs Hr Hm Hrng. unfold plantMines. cbn [plantMines_from].
  unfold bind at 1. unfold this at 1.
  replace (0 <? mines m) with true by lia.
  unfold bind at 1. unfold randomIndex at 1.
  unfold bind at 1. unfold randomIndex at 1.
  unfold bind at 1. unfold readCell. unfold bind at 1. unfold this at 1.
  cbn [matrix rows columns calls set_calls].
  rewrite index_outside; [reflexivity|].
  destruct Hs as [Hlen _]. rewrite Hlen.
  destruct Hrng as [H|H].
  - left. now apply floor_mul_negative.
  - right. apply floor_mul_large; [exact H | lia].
Qed.

Lemma plantMines_row_out_of_range_witness :
  plantMines (constRng 1) 5 cornerField
  = Throw TypeError (set_calls 2 cornerField).
Proof.
  apply (plantMines_row_out_of_range (constRng 1) 4 cornerField).
  - split; [reflexivity | repeat constructor].
  - reflexivity.
  - reflexivity.
  - right. discriminate.
Defined.

(** X8: when the random source returns a value outside [0, 1) and the
    first cell is to be revealed, [revealFirst] indexes the list it draws
    from outside its bounds and raises [TypeError], with no cell
    unmasked. *)
Theorem revealFirst_random_out_of_range (rng : nat -> Q) (fuel : nat) (m : Minesweeper) :
  shape m -> List.Forall (fun c => inGrid m (x c) (y c)) (safeCells m) ->
  revealFirstCell m = true ->
  (rng (calls m) < 0)%Q \/ (1 <= rng (calls m))%Q ->
  revealFirst rng fuel m = Throw TypeError (set_calls (S (calls m)) m).
Proof.
  intros Hs Hall Hrev Hrng.
  assert (Hpick : forall l, pickAndUnmask rng l m
                            = Throw TypeError (set_calls (S (calls m)) m)).
  { intros l. unfold pickAndUnmask. unfold bind at 1. unfold randomIndex.
    rewrite index_outside; [reflexivity|].
    destruct l as [|c l].
    - right. cbn [length]. destruct Hrng as [H|H].
      + unfold floorMul, exactValue, Js.floor_mul.
        change (inject_Z (Z.of_nat 0)) with 0%Q.
        rewrite Qmult_0_r. discriminate.
      + apply floor_mul_large; [exact H | lia].
    - destruct Hrng as [H|H].
      + left. apply floor_mul_negative; [exact H | cbn [length]; lia].
      + right. apply floor_mul_large; [exact H | lia]. }
  unfold revealFirst. unfold bind at 1. unfold this at 1. rewrite Hrev.
  cbn [negb]. unfold bind at 1. rewrite filterM_zero by assumption.
  destruct (_ && _); unfold bind at 1; now rewrite Hpick.
Qed.

Lemma revealFirst_random_out_of_range_witness :
  revealFirst (constRng 1) 9 (populated cornerField)
  = Throw TypeError (set_calls 1 (populated cornerField)).
Proof.
  apply (revealFirst_random_out_of_range (constRng 1) 9 (populated cornerField)).
  - apply populated_shape_safe; [exact cornerField_shape | discriminate].
  - exact (populatedSafe_inGrid cornerField).
  - reflexivity.
  - right. discriminate.
Defined.


(** ** [populate] and the safe cells *)







(** ** [getTextRepresentation] *)

Lemma join_length (sep : string) (l : list string) :
  String.length (Js.join sep l)
  = (list_sum (map String.length l) + String.length sep * (length l - 1))%nat.
Proof.
  unfold Js.join. induction l as [|s l IH]; [cbn; lia|].
  destruct l as [|s' l].
  - cbn. lia.
  - change (String.concat sep (s :: s' :: l))
      with (s ++ sep ++ String.concat sep (s' :: l))%string.
    rewrite !string_length_app, IH. cbn [map length].
    replace (S (length l) - 1)%nat with (length l) by lia.
    replace (S (S (length l)) - 1)%nat with (S (length l)) by lia.
    rewrite Nat.mul_succ_r. cbn [list_sum fold_right]. lia.
Qed.

Lemma rows_text_length (sep : string) (w : nat) (g : list (list string)) :
  List.Forall (fun row => length row = w) g ->
  list_sum (map String.length (map (Js.join sep) g))
  = (list_sum (map String.length (concat g))
     + length g * (String.length sep * (w - 1)))%nat.
Proof.
  induction 1 as [|row g Hrow Hall IH]; [reflexivity|].
  cbn [map concat length]. rewrite join_length, Hrow.
  change (list_sum (?a :: ?l)) with (a + list_sum l)%nat.
  rewrite IH, map_app, list_sum_app. lia.
Qed.

(** X10: the text of a field of [rows] by [columns] cells has as many
    characters as its cells together, plus one space between two cells of a
    row when [spaces] is on (none otherwise), plus one line feed between two
    rows; no separator follows the last cell or the last row. *)
Theorem getTextRepresentation_length (m : Minesweeper) :
  shape m -> 0 < rows m -> 0 < columns m ->
  Z.of_nat (String.length (getTextRepresentation m))
  = Z.of_nat (list_sum (map String.length (concat (matrix m))))
    + (if spaces m then rows m * (columns m - 1) else 0)
    + (rows m - 1).
Proof.
  intros [Hr Hc] Hrows Hcols. unfold getTextRepresentation.
  rewrite join_length.
  rewrite (rows_text_length _ (Z.to_nat (columns m))).
  2:{ eapply List.Forall_impl; [|exact Hc]. cbn. intros; lia. }
  rewrite length_map. cbn [String.length].
  destruct (spaces m); cbn [String.length]; nia.
Qed.

Lemma getTextRepresentation_length_witness :
  Z.of_nat (String.length (getTextRepresentation cornerField))
  = Z.of_nat (list_sum (map String.length (concat (matrix cornerField))))
    + 3 * (3 - 1) + (3 - 1).
Proof.
  apply (getTextRepresentation_length cornerField);
    [exact cornerField_shape | reflexivity | reflexivity].
Defined.

(** ** [revealFirst] and the mines *)

Lemma revealState_mine_masked (m0 s : Minesweeper) (i j : Z) :
  revealState m0 s -> inGrid m0 i j -> isMineAt m0 i j = true ->
  cellAt (matrix s) i j = Some (mine (types m0)).
Proof.
  intros (_ & _ & Hcells) Hg Hm.
  destruct (Hcells i j Hg) as [H|[Hm' _]]; [|congruence].
  rewrite H. unfold symbolAt. now rewrite Hm.
Qed.

(** X11: on the field [populate] leaves, with at least one safe cell and a
    random value in [0, 1), [revealFirst] completes and never unmasks a
    mine: every mine of the grid still holds the masked mine marker.  When
    the first cell is to be revealed, the coordinate returned lies in the
    grid, is not a mine and is unmasked, and the random source was called
    exactly once; otherwise the sentinel is returned and nothing changes.
    The list of safe cells is left as it was. *)
Theorem revealFirst_never_a_mine (rng : nat -> Q) (fuel : nat) (m0 : Minesweeper) :
  shape m0 -> populatedSafe m0 <> [] ->
  (0 <= rng (calls m0))%Q -> (rng (calls m0) < 1)%Q ->
  rows m0 * columns m0 <= Z.of_nat fuel ->
  exists o m2,
    revealFirst rng fuel (populated m0) = Done o m2 /\
    (forall i j, inGrid m0 i j -> isMineAt m0 i j = true ->
       cellAt (matrix m2) i j = Some (mine (types m0))) /\
    safeCells m2 = safeCells (populated m0) /\
    if revealFirstCell m0
    then inGrid m0 (x o) (y o) /\ isMineAt m0 (x o) (y o) = false /\
         unmaskedAt m2 (x o) (y o) = true /\ calls m2 = S (calls m0)
    else o = {| x := -1; y := -1 |} /\ m2 = populated m0.
Proof.
  intros Hs Hne H0 H1 Hfuel.
  pose proof (exact_unitValue (rows m0 * columns m0) _ H0 H1) as Hu.
  pose proof (populated_shape_safe m0 Hs Hne) as Hs1.
  destruct (revealFirstCell m0) eqn:Hrev.
  2:{ exists {| x := -1; y := -1 |}, (populated m0).
      split; [|split; [|split; [reflexivity | split; reflexivity]]].
      - unfold revealFirst, bind, this, ret.
        change (revealFirstCell (populated m0)) with (revealFirstCell m0).
        now rewrite Hrev.
      - intros i j Hg Hm.
        apply (revealState_mine_masked m0); [now apply populated_revealState | | ];
          assumption. }
  destruct (zeroFirstCell m0 &&
    (0 <? Z.of_nat (length (List.filter
       (fun c => isZeroAt (populated m0) (x c) (y c)) (populatedSafe m0))))) eqn:Hcond.
  - apply andb_true_iff in Hcond as [Hzf Hlen].
    destruct (List.filter _ (populatedSafe m0)) as [|c zs] eqn:E; [discriminate|].
    assert (Hc : In c (List.filter (fun c => isZeroAt (populated m0) (x c) (y c))
                          (populatedSafe m0))) by (rewrite E; now left).
    apply filter_In in Hc as [Hc Hz].
    destruct (revealFirst_zero rng fuel m0 Hs Hrev Hzf) as (o & m2 & Hrun & _ & Hzo & Hpost);
      [exists c; auto | assumption | assumption |].
    destruct Hpost as (Hrs2 & [Hcalls Hsafe] & Hmono & _).
    pose proof Hzo as (Hg & Hm & _).
    destruct (firstUnmask_state m0 o (S (calls m0)) Hs1 Hg Hm) as (_ & Hu0 & _).
    fold (firstUnmasked m0 o) in Hu0.
    exists o, m2. split; [exact Hrun|].
    split; [intros i j; now apply revealState_mine_masked|].
    split; [exact Hsafe|].
    split; [exact Hg|]. split; [exact Hm|].
    split; [apply Hmono; now apply Hu0 | exact Hcalls].
  - destruct (revealFirst_else rng fuel m0 Hs1 Hne Hrev Hcond Hu) as (o & Hin & Hrun).
    apply populatedSafe_In in Hin as [Hg Hm].
    destruct (firstUnmask_state m0 o (S (calls m0)) Hs1 Hg Hm) as (Hrs & Hu0 & _).
    fold (firstUnmasked m0 o) in Hrs, Hu0.
    exists o, (firstUnmasked m0 o). split; [exact Hrun|].
    split; [intros i j; now apply revealState_mine_masked|].
    split; [reflexivity|].
    split; [exact Hg|]. split; [exact Hm|].
    split; [now apply Hu0 | reflexivity].
Qed.

Lemma revealFirst_never_a_mine_witness :
  exists o m2,
    revealFirst (constRng (1 # 2)) 9 (populated cornerField) = Done o m2 /\
    cellAt (matrix m2) 0 0 = Some (mine (types cornerField)) /\
    unmaskedAt m2 (x o) (y o) = true.
Proof.
  destruct (revealFirst_never_a_mine (constRng (1 # 2)) 9 cornerField)
    as (o & m2 & Hrun & Hmines & _ & Hrest).
  - exact cornerField_shape.
  - discriminate.
  - discriminate.
  - reflexivity.
  - discriminate.
  - exists o, m2. split; [exact Hrun|]. split.
    + apply Hmines; [split; split; (discriminate || reflexivity) | reflexivity].
    + change (revealFirstCell cornerField) with true in Hrest. apply Hrest.
Defined.

(** ** [revealSurroundings] *)

Lemma revealCell_unmasked (zs : list SafeCell) (i j : Z) (s : Minesweeper) :
  unmaskedAt s i j = true -> revealCell zs i j s = Done zs s.
Proof.
  unfold unmaskedAt, cellAt. intros H.
  destruct (Js.index (matrix s) i) as [row|] eqn:Hrow; [|discriminate].
  destruct (Js.index row j) as [v|] eqn:Hv; [|discriminate].
  unfold revealCell. unfold bind at 1. unfold this at 1.
  unfold bind at 1. unfold readCell. unfold bind at 1. unfold this at 1.
  rewrite Hrow. unfold ret at 1. rewrite Hv.
  unfold isSpoiler in H. destruct (Js.includes v "||"); [discriminate | reflexivity].
Qed.

Lemma foldM_unchanged {A S} (body : S -> A -> M S) (l : list A) (acc : S) (m : Minesweeper) :
  (forall a, In a l -> body acc a m = Done acc m) ->
  foldM body l acc m = Done acc m.
Proof.
  induction l as [|a l IH]; intros H; [reflexivity|].
  cbn [foldM]. unfold bind. rewrite (H a) by now left.
  apply IH. intros a' Ha'. apply H. now right.
Qed.

(** X12: when every cell around [c] (the cells of the grid at distance at
    most 1, [c] included) is already unmasked, [revealSurroundings(c)]
    changes nothing and does not recurse, whatever [recurse] is: an
    unmasked cell is never stripped a second time. *)
Theorem revealSurroundings_revealed (fuel : nat) (c : SafeCell) (recurse : bool)
    (s : Minesweeper) :
  (forall i j,
     Z.max 0 (x c - 1) <= i <= Z.min (rows s - 1) (x c + 1) ->
     Z.max 0 (y c - 1) <= j <= Z.min (columns s - 1) (y c + 1) ->
     unmaskedAt s i j = true) ->
  revealSurroundings (S fuel) c recurse s = Done tt s.
Proof.
  intros H. cbn [revealSurroundings]. unfold bind at 1. unfold this at 1.
  unfold bind at 1. rewrite foldM_nested. rewrite foldM_unchanged.
  - destruct recurse; reflexivity.
  - intros a Ha. apply revealCell_unmasked.
    apply in_flat_map in Ha as (i & Hi & Ha).
    apply in_map_iff in Ha as (j & <- & Hj).
    unfold range in Hi, Hj. apply zseq_In in Hi, Hj. cbn [x y].
    apply H; lia.
Qed.

Lemma revealSurroundings_revealed_witness :
  let s := set_matrix [ [ "|| :boom: ||"; " :one: "; " :zero: " ];
                        [ " :one: "; " :one: "; " :zero: " ];
                        [ " :zero: "; " :zero: "; " :zero: " ] ]%string
             cornerField in
  revealSurroundings 1 {| x := 2; y := 2 |} true s = Done tt s.
Proof.
  cbv zeta. apply revealSurroundings_revealed. cbn [x y rows columns set_matrix].
  intros i j Hi Hj.
  assert (Hi' : i = 1 \/ i = 2) by (change (rows cornerField) with 3 in Hi; lia).
  assert (Hj' : j = 1 \/ j = 2) by (change (columns cornerField) with 3 in Hj; lia).
  destruct Hi' as [-> | ->], Hj' as [-> | ->]; reflexivity.
Defined.

(** X13: called on a zero cell with [recurse] off, [revealSurroundings]
    unmasks the cells of the grid around that zero and stops there: a cell
    is unmasked afterwards exactly when it was before or lies at distance at
    most 1 from the zero, even if some of the cells just unmasked are zeros
    themselves. *)
Theorem revealSurroundings_no_recursion (fuel : nat) (m0 s : Minesweeper) (z : SafeCell) :
  revealState m0 s -> zeroCell m0 z ->
  exists s',
    revealSurroundings (S fuel) z false s = Done tt s' /\
    revealState m0 s' /\
    forall c, unmaskedAt s' (x c) (y c) = true <->
              unmaskedAt s (x c) (y c) = true \/ box m0 z c.
Proof.
  intros Hrs Hz.
  destruct (revealBox_ok m0 s z Hrs Hz) as (zs & s1 & Hrun & Hrs1 & _ & Hu & _).
  exists s1. split; [|split; [exact Hrs1 | exact Hu]].
  cbn [revealSurroundings]. unfold bind at 1. unfold this at 1.
  unfold bind at 1. rewrite foldM_nested. fold (boxCells s z).
  now rewrite Hrun.
Qed.

Lemma revealSurroundings_no_recursion_witness :
  exists s',
    revealSurroundings 1 {| x := 2; y := 2 |} false (populated cornerField)
    = Done tt s' /\
    unmaskedAt s' 1 1 = true /\ unmaskedAt s' 0 2 = false.
Proof.
  destruct (revealSurroundings_no_recursion 0 cornerField (populated cornerField)
              {| x := 2; y := 2 |}) as (s' & Hrun & _ & Hu).
  - apply populated_revealState.
    apply populated_shape_safe; [exact cornerField_shape | discriminate].
  - split; [split; split; (discriminate || reflexivity)|]. split; reflexivity.
  - exists s'. split; [exact Hrun|]. split.
    + apply (Hu {| x := 1; y := 1 |}). right.
      split; [split; split; (discriminate || reflexivity) | discriminate].
    + destruct (unmaskedAt s' 0 2) eqn:E; [|reflexivity].
      apply (Hu {| x := 0; y := 2 |}) in E as [E|[_ E]]; [discriminate E|].
      exfalso. apply E. reflexivity.
Defined.

(** ** [populate] and the symbols of the grid *)

Lemma populated_shape_any (m0 : Minesweeper) : shape m0 -> shape (populated m0).
Proof.
  intros Hs. pose proof Hs as [Hr Hc]. unfold populated.
  destruct (matrix m0) as [|row g] eqn:E.
  - cbn in Hr. split; cbn [matrix rows columns set_matrix set_safeCells].
    + unfold populatedMatrix. rewrite <- Hr. reflexivity.
    + unfold populatedMatrix. rewrite <- Hr. constructor.
  - apply populated_shape; [apply (shape_nonneg _ Hs)|].
    apply List.Forall_inv in Hc. lia.
Qed.

(** X14: whatever the cells of a [rows] by [columns] grid hold, masked or
    not, [populate] leaves a grid of the same size whose cells are all
    masked: each holds the mine marker or one of the nine number markers. *)
Theorem populate_symbols (m0 : Minesweeper) :
  shape m0 ->
  exists m1,
    populate m0 = Done tt m1 /\ shape m1 /\
    forall i j s, cellAt (matrix m1) i j = Some s ->
      isSpoiler s = true /\
      (s = mine (types m0) \/ exists k, 0 <= k <= 8 /\ s = number_at m0 k).
Proof.
  intros Hs. exists (set_matrix (populatedMatrix m0)
                       (set_safeCells (safeCells m0 ++ populatedSafe m0) m0)).
  split; [apply populate_ok; exact Hs|].
  pose proof (populated_shape_any m0 Hs) as Hs1.
  split; [exact Hs1|].
  intros i j s Hcell.
  destruct (populated_cell_inGrid m0 i j s Hs1 Hcell) as [_ ->].
  split; [apply symbolAt_isSpoiler|].
  unfold symbolAt. destruct (isMineAt m0 i j); [now left|].
  right. exists (counterAt m0 i j). split; [apply counterAt_bounds | reflexivity].
Qed.

Lemma populate_symbols_witness :
  let s := set_matrix [ [ "|| :boom: ||"; " :one: "; " :zero: " ];
                        [ " :one: "; " :one: "; " :zero: " ];
                        [ " :zero: "; " :zero: "; " :zero: " ] ]%string
             cornerField in
  shape s /\
  exists m1,
    populate s = Done tt m1 /\ shape m1 /\
    forall i j v, cellAt (matrix m1) i j = Some v -> isSpoiler v = true.
Proof.
  cbv zeta. set (s := set_matrix _ cornerField).
  assert (Hs : shape s) by (split; [reflexivity | repeat constructor]).
  split; [exact Hs|].
  destruct (populate_symbols s Hs) as (m1 & Hrun & Hs1 & Hcells).
  exists m1. split; [exact Hrun|]. split; [exact Hs1|].
  intros i j v Hv. exact (proj1 (Hcells i j v Hv)).
Defined.
